(** * Stream decoders and typewriter engine of the chat front end

    A shallow embedding of the newline-JSON and SSE stream decoders
    ([processSingleChunk], [processRawChunkString], [handleStream],
    [handleSSEStream]) and of the [useTypewriterEffect] hook
    (web/src/app/chat/message/hooks.ts), with the properties of the
    specification stated over them.

    JavaScript strings are modelled by [string]: one [ascii] per UTF-16 code
    unit, so the development covers the strings whose code units are below
    256.  [JSON.parse] and the regular expressions are platform functions;
    they are modelled by a JSON parser and a backtracking matcher written
    out below. *)

From Stdlib Require Import String Ascii List ZArith Lia Bool Arith PeanoNat.
From Stdlib Require DecimalString DecimalZ.
From stdpp Require Import gmap strings.
Import ListNotations.

Local Open Scope string_scope.
Local Open Scope list_scope.
Local Open Scope nat_scope.

#[local] Set Warnings "-register-all".

(* stdpp blocks the reduction of string concatenation by [simpl]. *)
#[local] Arguments String.append !_ _ : simpl nomatch.

(** ** JavaScript string primitives *)

Module JS.

Definition newline : ascii := "010"%char.

(** [s.split(d)] for a one-character separator [d]. *)
Fixpoint split (d : ascii) (s : string) : list string :=
  match s with
  | EmptyString => [EmptyString]
  | String c s' =>
      if Ascii.eqb c d then EmptyString :: split d s'
      else match split d s' with
           | [] => [String c EmptyString]
           | h :: t => String c h :: t
           end
  end.

(** [s.startsWith(p)]. *)
Definition startsWith (s p : string) : bool := String.prefix p s.

(** [s.substring(n)] and [s.slice(n)] for [0 <= n]. *)
Fixpoint drop (n : nat) (s : string) : string :=
  match n, s with
  | O, _ => s
  | S n', EmptyString => EmptyString
  | S n', String _ s' => drop n' s'
  end.

(** [s.substring(0, n)]; an [n] beyond the end is clamped. *)
Definition take (n : nat) (s : string) : string := String.substring 0 n s.

(** White space and line terminators, the characters [trim] strips and the
    class [\s] contains, among the code units below 256. *)
Definition isSpace (c : ascii) : bool :=
  let n := nat_of_ascii c in
  ((9 <=? n) && (n <=? 13)) || (n =? 32) || (n =? 160).

Definition isDigit (c : ascii) : bool :=
  let n := nat_of_ascii c in (48 <=? n) && (n <=? 57).

Fixpoint allSpace (s : string) : bool :=
  match s with
  | EmptyString => true
  | String c s' => isSpace c && allSpace s'
  end.

(** [s.trim()] is the empty string. *)
Definition trimIsEmpty (s : string) : bool := allSpace s.

(** [!s] for a string: only the empty string is falsy. *)
Definition isEmpty (s : string) : bool :=
  match s with EmptyString => true | _ => false end.

(** [p || ''] for [p : string | null]. *)
Definition orEmpty (p : option string) : string :=
  match p with Some s => s | None => EmptyString end.

(** [!p] for [p : string | null]. *)
Definition falsyPartial (p : option string) : bool :=
  match p with Some s => isEmpty s | None => true end.

(** Vocabulary of the statements about chunk boundaries. *)
Fixpoint endsWithNewline (s : string) : bool :=
  match s with
  | EmptyString => false
  | String c EmptyString => Ascii.eqb c newline
  | String _ s' => endsWithNewline s'
  end.

Definition startsWithNewline (s : string) : bool :=
  match s with
  | String c _ => Ascii.eqb c newline
  | EmptyString => false
  end.

Fixpoint removeNewlines (s : string) : string :=
  match s with
  | EmptyString => EmptyString
  | String c s' =>
      if Ascii.eqb c newline then removeNewlines s'
      else String c (removeNewlines s')
  end.

Fixpoint hasNewline (s : string) : bool :=
  match s with
  | EmptyString => false
  | String c s' => Ascii.eqb c newline || hasNewline s'
  end.

(** The texts [ms] occur in [s] from left to right, without overlap. *)
Inductive occursInOrder : list string -> string -> Prop :=
| occurs_none : forall s, occursInOrder [] s
| occurs_next : forall gap m ms rest,
    occursInOrder ms rest ->
    occursInOrder (m :: ms) (gap +:+ m +:+ rest).

End JS.

(** ** Regular expressions: a backtracking matcher

    Greedy quantifiers, ordered alternation and leftmost matching, as
    ECMAScript prescribes.  A starred group that matched the empty string is
    not iterated again. *)

Module Regex.

Inductive regex : Type :=
| Eps : regex
| Bol : regex                          (* ^ *)
| Cls : (ascii -> bool) -> regex       (* a character class *)
| Seq : regex -> regex -> regex
| Alt : regex -> regex -> regex
| Star : regex -> regex.

Definition Chr (c : ascii) : regex := Cls (Ascii.eqb c).
Definition Plus (r : regex) : regex := Seq r (Star r).
Definition Opt (r : regex) : regex := Alt r Eps.

Fixpoint Cat (rs : list regex) : regex :=
  match rs with
  | [] => Eps
  | [r] => r
  | r :: rs' => Seq r (Cat rs')
  end.

Fixpoint Lit (s : string) : regex :=
  match s with
  | EmptyString => Eps
  | String c EmptyString => Chr c
  | String c s' => Seq (Chr c) (Lit s')
  end.

(** [rmatch total r s k]: match [r] at the head of [s] and hand what is left
    to the continuation [k]; [None] makes the matcher backtrack.  [total] is
    the length of the whole subject, so that [s] is at the start of the
    subject exactly when it has that length. *)
Fixpoint rmatch {R : Type} (total : nat) (r : regex) (s : string)
    (k : string -> option R) {struct r} : option R :=
  match r with
  | Eps => k s
  | Bol => if String.length s =? total then k s else None
  | Cls f =>
      match s with
      | String c s' => if f c then k s' else None
      | EmptyString => None
      end
  | Seq r1 r2 => rmatch total r1 s (fun s1 => rmatch total r2 s1 k)
  | Alt r1 r2 =>
      match rmatch total r1 s k with
      | Some x => Some x
      | None => rmatch total r2 s k
      end
  | Star r1 =>
      (fix loop (fuel : nat) (s : string) {struct fuel} : option R :=
         match fuel with
         | O => k s
         | S fuel' =>
             match rmatch total r1 s
                     (fun s1 => if String.length s1 <? String.length s
                                then loop fuel' s1 else None) with
             | Some x => Some x
             | None => k s
             end
         end) (String.length s) s
  end.

(** One attempt of a pattern at the head of [s]: the replacement text and the
    rest of the subject after the match. *)
Definition attempt : Type := nat -> string -> option (string * string).

(** A pattern replaced by the empty string. *)
Definition erase (r : regex) : attempt :=
  fun total s => rmatch total r s (fun rest => Some (EmptyString, rest)).

(** A pattern [(g)body] replaced by ['$1']: the first group is the leading
    factor of the pattern, so its capture is the text consumed before the
    body starts. *)
Definition keepGroup1 (g body : regex) : attempt :=
  fun total s =>
    rmatch total g s (fun s1 =>
      rmatch total body s1 (fun rest =>
        Some (JS.take (String.length s - String.length s1) s, rest))).

(** [s.replace(/re/g, ...)]: scan from the left; after a match continue
    behind it (one character further after an empty match). *)
Fixpoint replaceLoop (m : string -> option (string * string)) (fuel : nat)
    (s : string) : string :=
  match fuel with
  | O => s
  | S fuel' =>
      match m s with
      | Some (rep, rest) =>
          if String.length rest <? String.length s
          then rep +:+ replaceLoop m fuel' rest
          else match s with
               | EmptyString => rep
               | String c s' => rep +:+ String c (replaceLoop m fuel' s')
               end
      | None =>
          match s with
          | EmptyString => EmptyString
          | String c s' => String c (replaceLoop m fuel' s')
          end
      end
  end.

Definition replaceAll (a : attempt) (s : string) : string :=
  replaceLoop (a (String.length s)) (S (String.length s)) s.

(** [s.match(/re/g)]: the matched substrings from left to right, [None] (the
    JavaScript [null]) when there is none. *)
Fixpoint matchLoop (m : string -> option string) (fuel : nat) (s : string)
    : list string :=
  match fuel with
  | O => []
  | S fuel' =>
      match m s with
      | Some rest =>
          let hit := JS.take (String.length s - String.length rest) s in
          if String.length rest <? String.length s
          then hit :: matchLoop m fuel' rest
          else match s with
               | EmptyString => [hit]
               | String _ s' => hit :: matchLoop m fuel' s'
               end
      | None =>
          match s with
          | EmptyString => []
          | String _ s' => matchLoop m fuel' s'
          end
      end
  end.

Definition matchAll (r : regex) (s : string) : option (list string) :=
  match matchLoop (fun t => rmatch (String.length s) r t Some)
          (S (String.length s)) s with
  | [] => None
  | l => Some l
  end.

End Regex.

(** ** The citation filter of the typewriter *)

Module Citations.
Import Regex.

Definition notParen (c : ascii) : bool :=
  negb (Ascii.eqb c "(" || Ascii.eqb c ")").

(** [[\d,\s-]] *)
Definition refChar (c : ascii) : bool :=
  JS.isDigit c || Ascii.eqb c "," || JS.isSpace c || Ascii.eqb c "-".

(** [[,\s-]] *)
Definition sepChar (c : ascii) : bool :=
  Ascii.eqb c "," || JS.isSpace c || Ascii.eqb c "-".

(** The URL part shared by the first two patterns, written with spaces
    between the tokens: [ \( (?: [^()] | \( [^()]* \) )* \) ], a
    parenthesised text with one level of nested parentheses. *)
Definition urlPart : regex :=
  Cat [Chr "(";
       Star (Alt (Cls notParen)
                 (Cat [Chr "("; Star (Cls notParen); Chr ")"]));
       Chr ")"].

(** First pattern: [ \[ \[ [\d,\s-]+ \] \] ] followed by the URL part. *)
Definition doubleBracketCitation : regex :=
  Cat [Chr "["; Chr "["; Plus (Cls refChar); Chr "]"; Chr "]"; urlPart].

(** Second pattern: [ \[ ( \d+ (?: [,\s-] \s* \d+ )* ) \] ] followed by
    the URL part. *)
Definition numericCitation : regex :=
  Cat [Chr "[";
       Plus (Cls JS.isDigit);
       Star (Cat [Cls sepChar; Star (Cls JS.isSpace); Plus (Cls JS.isDigit)]);
       Chr "]"; urlPart].

(** Third pattern: [ ( ^ | [^\]] ) \( ( https?:\/\/ [^\s)]+ ) \) ]; its
    first group and the rest. *)
Definition orphanLead : regex :=
  Alt Bol (Cls (fun c => negb (Ascii.eqb c "]"))).

Definition orphanUrl : regex :=
  Cat [Chr "("; Lit "http"; Opt (Chr "s"); Lit "://";
       Plus (Cls (fun c => negb (JS.isSpace c || Ascii.eqb c ")")));
       Chr ")"].

Definition filterCitationsForTyping (content : string) : string :=
  replaceAll (keepGroup1 orphanLead orphanUrl)
    (replaceAll (erase numericCitation)
       (replaceAll (erase doubleBracketCitation) content)).

End Citations.

(** ** [JSON.parse]

    The JSON grammar of ECMA-404 as [JSON.parse] accepts it.  A number is
    kept as sign, decimal mantissa and decimal exponent; an object as the
    list of its members in source order.  A syntax error, which
    [JSON.parse] throws, is [None]. *)

Module Json.

Inductive value : Type :=
| Null : value
| Bool : bool -> value
| Number : bool -> N -> Z -> value      (* negative, mantissa, exponent of 10 *)
| Str : list N -> value                 (* code units *)
| Arr : list value -> value
| Obj : list (list N * value) -> value.

Definition isWs (c : ascii) : bool :=
  let n := nat_of_ascii c in (n =? 9) || (n =? 10) || (n =? 13) || (n =? 32).

Fixpoint skipWs (s : string) : string :=
  match s with
  | String c s' => if isWs c then skipWs s' else s
  | EmptyString => s
  end.

Fixpoint digits (s : string) : list N * string :=
  match s with
  | String c s' =>
      if JS.isDigit c
      then let '(ds, r) := digits s' in ((N_of_ascii c - 48)%N :: ds, r)
      else ([], s)
  | EmptyString => ([], s)
  end.

Definition decimal (ds : list N) : N :=
  fold_left (fun acc d => (10 * acc + d)%N) ds 0%N.

(** [int frac? exp?] after the optional sign. *)
Definition pNumber (neg : bool) (s : string) : option (value * string) :=
  match digits s with
  | ([], _) => None
  | (i :: ds, r) =>
      if (N.eqb i 0 && negb (Nat.eqb (List.length ds) 0))%bool then None
      else
        let '(fs, r1, okf) :=
          match r with
          | String "." r' =>
              let '(fs, r1) := digits r' in
              (fs, r1, negb (Nat.eqb (List.length fs) 0))
          | _ => ([], r, true)
          end in
        let '(e, r2, oke) :=
          match r1 with
          | String c r' =>
              if (Ascii.eqb c "e" || Ascii.eqb c "E")%bool then
                let '(sgn, r'') :=
                  match r' with
                  | String "+" t => (false, t)
                  | String "-" t => (true, t)
                  | _ => (false, r')
                  end in
                let '(es, r2) := digits r'' in
                let e := Z.of_N (decimal es) in
                ((if sgn then - e else e)%Z, r2,
                 negb (Nat.eqb (List.length es) 0))
              else (0%Z, r1, true)
          | _ => (0%Z, r1, true)
          end in
        if (okf && oke)%bool
        then Some (Number neg (decimal ((i :: ds) ++ fs))
                     (e - Z.of_nat (List.length fs))%Z, r2)
        else None
  end.

Definition hexDigit (c : ascii) : option N :=
  let n := N_of_ascii c in
  if ((48 <=? n) && (n <=? 57))%N then Some (n - 48)%N
  else if ((65 <=? n) && (n <=? 70))%N then Some (n - 55)%N
  else if ((97 <=? n) && (n <=? 102))%N then Some (n - 87)%N
  else None.

(** The characters of a string literal after its opening quote. *)
Fixpoint pChars (fuel : nat) (s : string) : option (list N * string) :=
  match fuel with
  | O => None
  | S fuel' =>
      match s with
      | EmptyString => None
      | String "034" r => Some ([], r)
      | String "\" (String e r) =>
          let simple (n : N) :=
            match pChars fuel' r with
            | Some (cs, r') => Some (n :: cs, r')
            | None => None
            end in
          match e with
          | "034"%char => simple 34%N
          | "\"%char => simple 92%N
          | "/"%char => simple 47%N
          | "b"%char => simple 8%N
          | "f"%char => simple 12%N
          | "n"%char => simple 10%N
          | "r"%char => simple 13%N
          | "t"%char => simple 9%N
          | "u"%char =>
              match r with
              | String a (String b (String c (String d r'))) =>
                  match hexDigit a, hexDigit b, hexDigit c, hexDigit d with
                  | Some x, Some y, Some z, Some w =>
                      match pChars fuel' r' with
                      | Some (cs, r'') =>
                          Some ((4096 * x + 256 * y + 16 * z + w)%N :: cs, r'')
                      | None => None
                      end
                  | _, _, _, _ => None
                  end
              | _ => None
              end
          | _ => None
          end
      | String c r =>
          if (Ascii.eqb c "\" || (nat_of_ascii c <? 32))%bool then None
          else match pChars fuel' r with
               | Some (cs, r') => Some (N_of_ascii c :: cs, r')
               | None => None
               end
      end
  end.

Definition pLiteral (word : string) (v : value) (s : string)
    : option (value * string) :=
  if String.prefix word s then Some (v, JS.drop (String.length word) s)
  else None.

(** A value, the elements of an array after its first one, and the members
    of an object after its first one. *)
Fixpoint pValue (fuel : nat) (s : string) : option (value * string) :=
  match fuel with
  | O => None
  | S fuel' =>
      match skipWs s with
      | String "n" _ => pLiteral "null" Null (skipWs s)
      | String "t" _ => pLiteral "true" (Bool true) (skipWs s)
      | String "f" _ => pLiteral "false" (Bool false) (skipWs s)
      | String "034" r =>
          match pChars (S (String.length r)) r with
          | Some (cs, r') => Some (Str cs, r')
          | None => None
          end
      | String "-" r => pNumber true r
      | String "[" r =>
          match skipWs r with
          | String "]" r' => Some (Arr [], r')
          | _ =>
              match pValue fuel' r with
              | Some (v, r1) =>
                  match pElements fuel' r1 with
                  | Some (vs, r2) => Some (Arr (v :: vs), r2)
                  | None => None
                  end
              | None => None
              end
          end
      | String "{" r =>
          match skipWs r with
          | String "}" r' => Some (Obj [], r')
          | _ =>
              match pMember fuel' r with
              | Some (m, r1) =>
                  match pMembers fuel' r1 with
                  | Some (ms, r2) => Some (Obj (m :: ms), r2)
                  | None => None
                  end
              | None => None
              end
          end
      | t => pNumber false t
      end
  end
with pElements (fuel : nat) (s : string) : option (list value * string) :=
  match fuel with
  | O => None
  | S fuel' =>
      match skipWs s with
      | String "]" r => Some ([], r)
      | String "," r =>
          match pValue fuel' r with
          | Some (v, r1) =>
              match pElements fuel' r1 with
              | Some (vs, r2) => Some (v :: vs, r2)
              | None => None
              end
          | None => None
          end
      | _ => None
      end
  end
with pMember (fuel : nat) (s : string) : option ((list N * value) * string) :=
  match fuel with
  | O => None
  | S fuel' =>
      match skipWs s with
      | String "034" r =>
          match pChars (S (String.length r)) r with
          | Some (key, r1) =>
              match skipWs r1 with
              | String ":" r2 =>
                  match pValue fuel' r2 with
                  | Some (v, r3) => Some ((key, v), r3)
                  | None => None
                  end
              | _ => None
              end
          | None => None
          end
      | _ => None
      end
  end
with pMembers (fuel : nat) (s : string)
    : option (list (list N * value) * string) :=
  match fuel with
  | O => None
  | S fuel' =>
      match skipWs s with
      | String "}" r => Some ([], r)
      | String "," r =>
          match pMember fuel' r with
          | Some (m, r1) =>
              match pMembers fuel' r1 with
              | Some (ms, r2) => Some (m :: ms, r2)
              | None => None
              end
          | None => None
          end
      | _ => None
      end
  end.

(** [JSON.parse(text)]: one value, white space around it, nothing else. *)
Definition parse (text : string) : option value :=
  match pValue (2 * String.length text + 2) text with
  | Some (v, r) => if JS.isEmpty (skipWs r) then Some v else None
  | None => None
  end.

(** A decimal that rounds to the double 0: the mantissa is 0, or the value
    is at most 2^-1075, half the least positive double. *)
Definition roundsToZero (mantissa : N) (exponent : Z) : bool :=
  (N.eqb mantissa 0
   || ((exponent <? 0)%Z
       && (Z.of_N mantissa * 2 ^ 1075 <=? 10 ^ (- exponent))%Z))%bool.

(** Truthiness of a parsed value: [null], [false], [0] and the empty string
    are falsy. *)
Definition truthy (v : value) : bool :=
  match v with
  | Null => false
  | Bool b => b
  | Number _ m e => negb (roundsToZero m e)
  | Str cs => negb (Nat.eqb (List.length cs) 0)
  | Arr _ => true
  | Obj _ => true
  end.

(** The code units of a string, for writing expected values. *)
Definition units (s : string) : list N :=
  List.map N_of_ascii (list_ascii_of_string s).

End Json.

(** ** The stream decoders *)

Module Stream.

(** The events of a stream: what [JSON.parse] returns for a text, and the
    truthiness JavaScript gives a parsed value. *)
Class Parser (T : Type) : Type := {
  jsonParse : string -> option T;
  isTruthy : T -> bool
}.

#[export] Instance jsonParser : Parser Json.value := {
  jsonParse := Json.parse;
  isTruthy := Json.truthy
}.

(** What a reader delivers: no result at all, or a chunk of text (the
    output of the [TextDecoder]); the end of the list of reads is [done]. *)
Inductive Read : Type :=
| Absent : Read
| Chunk : string -> Read.

Inductive Outcome : Type :=
| Finished : Outcome
| Threw : string -> Outcome.

Section Decoders.
Context {T : Type} `{Parser T}.

Definition processSingleChunk (chunk : string)
    (currPartialChunk : option string) : option T * option string :=
  let completeChunk := JS.orEmpty currPartialChunk +:+ chunk in
  match jsonParse completeChunk with
  | Some chunkJson => (Some chunkJson, None)
  | None => (None, Some completeChunk)
  end.

(** The body of the [forEach] callback: the events so far and the partial,
    updated for one section. *)
Definition processSection (acc : list T * option string) (chunk : string)
    : list T * option string :=
  let '(parsedChunkSections, currPartialChunk) := acc in
  let '(processedChunk, partialChunk) :=
    processSingleChunk chunk currPartialChunk in
  match processedChunk with
  | Some v =>
      if isTruthy v then (parsedChunkSections ++ [v], None)
      else (parsedChunkSections, partialChunk)
  | None => (parsedChunkSections, partialChunk)
  end.

Definition chunkSections (rawChunkString : string) : list string :=
  List.filter (fun chunk => 0 <? String.length chunk)
    (JS.split JS.newline rawChunkString).

Definition processRawChunkString (rawChunkString : string)
    (previousPartialChunk : option string) : list T * option string :=
  if JS.isEmpty rawChunkString then ([], None)
  else fold_left processSection (chunkSections rawChunkString)
         ([], previousPartialChunk).

(** [handleStream]: the batches it yields and how it ends. *)
Fixpoint handleStreamFrom (previousPartialChunk : option string)
    (reads : list Read) : list (list T) * Outcome :=
  match reads with
  | [] => ([], Finished)
  | Absent :: _ => ([], Threw "Unable to process chunk")
  | Chunk value :: rest =>
      let '(completedChunks, partialChunk) :=
        processRawChunkString value previousPartialChunk in
      if (Nat.eqb (List.length completedChunks) 0
          && JS.falsyPartial partialChunk)%bool
      then ([], Finished)
      else
        let '(batches, outcome) := handleStreamFrom partialChunk rest in
        (completedChunks :: batches, outcome)
  end.

Definition handleStream (reads : list Read) : list (list T) * Outcome :=
  handleStreamFrom None reads.

(** The fallback pattern [/\{[^{}]*\}/g]. *)
Definition braceObject : Regex.regex :=
  Regex.Cat
    [Regex.Chr "{";
     Regex.Star (Regex.Cls (fun c =>
       negb (Ascii.eqb c "{" || Ascii.eqb c "}")));
     Regex.Chr "}"].

(** The inner loop of the fallback: every extracted text that parses is
    yielded, the others are logged and skipped. *)
Fixpoint parseEach (jsonObjects : list string) : list T :=
  match jsonObjects with
  | [] => []
  | jsonObj :: rest =>
      match jsonParse jsonObj with
      | Some data => data :: parseEach rest
      | None => parseEach rest
      end
  end.

Definition sseData (jsonContent : string) : list T :=
  match jsonParse jsonContent with
  | Some data => [data]
  | None =>
      match Regex.matchAll braceObject jsonContent with
      | Some jsonObjects => parseEach jsonObjects
      | None => []
      end
  end.

(** What one line of the buffer yields. *)
Definition sseLine (line : string) : list T :=
  if JS.trimIsEmpty line then []
  else if JS.startsWith line "data: " then sseData (JS.drop 6 line)
  else [].

(** What the rest of the buffer yields after the last read; the source
    repeats the body of the line loop for it. *)
Definition sseFlush (buffer : string) : list T :=
  if negb (JS.trimIsEmpty buffer) then
    if JS.startsWith buffer "data: " then sseData (JS.drop 6 buffer)
    else []
  else [].

(** One read of [handleSSEStream]: the events of the complete lines and the
    buffer kept for the next read. *)
Definition sseRead (buffer value : string) : list T * string :=
  let lines := JS.split JS.newline (buffer +:+ value) in
  (flat_map sseLine (removelast lines), List.last lines EmptyString).

Fixpoint sseLoop (buffer : string) (reads : list Read)
    : list T * string * Outcome :=
  match reads with
  | [] => ([], buffer, Finished)
  | Absent :: _ => ([], buffer, Threw "Unable to process chunk")
  | Chunk value :: rest =>
      let '(events, buffer') := sseRead buffer value in
      let '(later, final, outcome) := sseLoop buffer' rest in
      (events ++ later, final, outcome)
  end.

Definition handleSSEStream (reads : list Read) : list T * Outcome :=
  let '(events, buffer, outcome) := sseLoop EmptyString reads in
  match outcome with
  | Finished => (events ++ sseFlush buffer, Finished)
  | Threw e => (events, Threw e)
  end.

(** Sequential use of the newline-JSON decoder: the events of all calls and
    the partial after the last one. *)
Fixpoint decodeChunks (partial : option string) (chunks : list string)
    : list T * option string :=
  match chunks with
  | [] => ([], partial)
  | chunk :: rest =>
      let '(events, partial') := processRawChunkString chunk partial in
      let '(later, final) := decodeChunks partial' rest in
      (events ++ later, final)
  end.

(** A split of a text into chunks that the decoder tolerates: no chunk is
    empty, and every boundary between two chunks lies next to a newline or
    at a point where the decoder holds a partial. *)
Fixpoint safeSplit (partial : option string) (chunks : list string) : bool :=
  match chunks with
  | [] => true
  | chunk :: rest =>
      negb (JS.isEmpty chunk)
      && match rest with
         | [] => true
         | next :: _ =>
             let partial' := snd (processRawChunkString chunk partial) in
             (JS.endsWithNewline chunk || JS.startsWithNewline next
              || negb (JS.falsyPartial partial'))
             && safeSplit partial' rest
         end
  end.

(** What one parsed unit contributes to the events. *)
Definition eventOf (unit : string) : list T :=
  match jsonParse unit with
  | Some v => if isTruthy v then [v] else []
  | None => []
  end.

End Decoders.

Definition joinChunks (chunks : list string) : string :=
  fold_right String.append EmptyString chunks.

Definition reads (chunks : list string) : list Read := List.map Chunk chunks.

(** A complete SSE line carrying [payload], and a text made of such lines. *)
Definition dataLine (payload : string) : string :=
  "data: " +:+ payload +:+ String JS.newline EmptyString.

Definition dataLines (payloads : list string) : string :=
  joinChunks (List.map dataLine payloads).

End Stream.

(** ** The typewriter hook [useTypewriterEffect]

    A mounted hook is its two pieces of React state, its refs, the timers it
    has pending, and the values its registered closures captured from the
    render that created them. *)

Module Typewriter.
Import Citations.

Record Props : Type := {
  content : string;
  isComplete : bool;
  shared : bool;
  chatSessionId : option string;       (* [None]: null or undefined *)
  messageId : option Z                 (* [None]: null *)
}.

(** The mutable variables [fullContent] and [currentIndex] of one call of
    [continueTyping], and the [isTypingComplete] its [typeNextChar] captured
    from the render. *)
Record Closure : Type := {
  fullContent : string;
  currentIndex : nat;
  sawTypingComplete : bool
}.

Record Hook : Type := {
  displayedContent : string;           (* useState *)
  isTypingComplete : bool;             (* useState *)
  timeoutRef : option nat;
  isTypingRef : bool;
  lastContentRef : string;
  currentTypingIndexRef : nat;
  typingDisabledRef : bool;
  timers : list (nat * Closure);       (* pending [setTimeout] callbacks *)
  nextTimer : nat                      (* the id of the next timer *)
}.

(** What the functions of one render see: the props and the state of that
    render. *)
Record Render : Type := {
  rProps : Props;
  rDisplayed : string;
  rComplete : bool
}.

Record Mounted : Type := {
  hook : Hook;
  props : Props;                       (* the props last rendered *)
  cleanupClosure : Render;             (* render of the unmount effect *)
  handlerClosure : Render              (* render of the visibility handler *)
}.

Record World : Type := {
  sessionStorage : gmap string string;
  component : option Mounted
}.

Inductive Visibility : Type := Hidden | Visible.

Inductive Event : Type :=
| Update : Props -> Event              (* a render with new props *)
| Tick : nat -> Event                  (* the timer with this id fires *)
| VisibilityChange : Visibility -> Event
| Unmount : Event.

Definition setDisplayedContent (v : string) (h : Hook) : Hook :=
  {| displayedContent := v; isTypingComplete := isTypingComplete h;
     timeoutRef := timeoutRef h; isTypingRef := isTypingRef h;
     lastContentRef := lastContentRef h;
     currentTypingIndexRef := currentTypingIndexRef h;
     typingDisabledRef := typingDisabledRef h; timers := timers h;
     nextTimer := nextTimer h |}.

Definition setIsTypingComplete (v : bool) (h : Hook) : Hook :=
  {| displayedContent := displayedContent h; isTypingComplete := v;
     timeoutRef := timeoutRef h; isTypingRef := isTypingRef h;
     lastContentRef := lastContentRef h;
     currentTypingIndexRef := currentTypingIndexRef h;
     typingDisabledRef := typingDisabledRef h; timers := timers h;
     nextTimer := nextTimer h |}.

Definition setIsTypingRef (v : bool) (h : Hook) : Hook :=
  {| displayedContent := displayedContent h;
     isTypingComplete := isTypingComplete h;
     timeoutRef := timeoutRef h; isTypingRef := v;
     lastContentRef := lastContentRef h;
     currentTypingIndexRef := currentTypingIndexRef h;
     typingDisabledRef := typingDisabledRef h; timers := timers h;
     nextTimer := nextTimer h |}.

Definition setLastContentRef (v : string) (h : Hook) : Hook :=
  {| displayedContent := displayedContent h;
     isTypingComplete := isTypingComplete h;
     timeoutRef := timeoutRef h; isTypingRef := isTypingRef h;
     lastContentRef := v;
     currentTypingIndexRef := currentTypingIndexRef h;
     typingDisabledRef := typingDisabledRef h; timers := timers h;
     nextTimer := nextTimer h |}.

Definition setCurrentTypingIndexRef (v : nat) (h : Hook) : Hook :=
  {| displayedContent := displayedContent h;
     isTypingComplete := isTypingComplete h;
     timeoutRef := timeoutRef h; isTypingRef := isTypingRef h;
     lastContentRef := lastContentRef h;
     currentTypingIndexRef := v;
     typingDisabledRef := typingDisabledRef h; timers := timers h;
     nextTimer := nextTimer h |}.

Definition setTypingDisabledRef (v : bool) (h : Hook) : Hook :=
  {| displayedContent := displayedContent h;
     isTypingComplete := isTypingComplete h;
     timeoutRef := timeoutRef h; isTypingRef := isTypingRef h;
     lastContentRef := lastContentRef h;
     currentTypingIndexRef := currentTypingIndexRef h;
     typingDisabledRef := v; timers := timers h;
     nextTimer := nextTimer h |}.

(** [timeoutRef.current = setTimeout(typeNextChar, 3.5)] *)
Definition scheduleTick (cl : Closure) (h : Hook) : Hook :=
  {| displayedContent := displayedContent h;
     isTypingComplete := isTypingComplete h;
     timeoutRef := Some (nextTimer h); isTypingRef := isTypingRef h;
     lastContentRef := lastContentRef h;
     currentTypingIndexRef := currentTypingIndexRef h;
     typingDisabledRef := typingDisabledRef h;
     timers := timers h ++ [(nextTimer h, cl)];
     nextTimer := S (nextTimer h) |}.

Definition dropTimer (id : nat) (ts : list (nat * Closure))
    : list (nat * Closure) :=
  List.filter (fun t => negb (Nat.eqb (fst t) id)) ts.

(** [if (timeoutRef.current) { clearTimeout(timeoutRef.current);
    timeoutRef.current = null; }]; timer ids are positive, hence truthy. *)
Definition clearPendingTimeout (h : Hook) : Hook :=
  match timeoutRef h with
  | Some id =>
      {| displayedContent := displayedContent h;
         isTypingComplete := isTypingComplete h;
         timeoutRef := None; isTypingRef := isTypingRef h;
         lastContentRef := lastContentRef h;
         currentTypingIndexRef := currentTypingIndexRef h;
         typingDisabledRef := typingDisabledRef h;
         timers := dropTimer id (timers h);
         nextTimer := nextTimer h |}
  | None => h
  end.

(** A timer that fired leaves the list of pending timers. *)
Definition fireTimer (id : nat) (h : Hook) : Hook :=
  {| displayedContent := displayedContent h;
     isTypingComplete := isTypingComplete h;
     timeoutRef := timeoutRef h; isTypingRef := isTypingRef h;
     lastContentRef := lastContentRef h;
     currentTypingIndexRef := currentTypingIndexRef h;
     typingDisabledRef := typingDisabledRef h;
     timers := dropTimer id (timers h);
     nextTimer := nextTimer h |}.

Definition initialHook : Hook :=
  {| displayedContent := EmptyString; isTypingComplete := false;
     timeoutRef := None; isTypingRef := false;
     lastContentRef := EmptyString; currentTypingIndexRef := 0;
     typingDisabledRef := false; timers := []; nextTimer := 1 |}.

Definition renderOf (p : Props) (h : Hook) : Render :=
  {| rProps := p; rDisplayed := displayedContent h;
     rComplete := isTypingComplete h |}.

(** The template [`disableTyping:${chatSessionId}:${messageId}`], or null. *)
Definition storageKey (p : Props) : option string :=
  match chatSessionId p, messageId p with
  | Some session, Some message =>
      Some ("disableTyping:" +:+ session +:+ ":"
            +:+ DecimalString.NilZero.string_of_int (Z.to_int message))
  | _, _ => None
  end.

(** One run of [typeNextChar]. *)
Definition typeNextChar (cl : Closure) (h : Hook) : Hook :=
  if ((currentIndex cl <? String.length (fullContent cl))
      && negb (sawTypingComplete cl) && isTypingRef h)%bool
  then
    let currentIndex' := S (currentIndex cl) in
    let h1 := setCurrentTypingIndexRef currentIndex' h in
    let fullContent' := filterCitationsForTyping (fullContent cl) in
    let filteredContent := JS.take currentIndex' fullContent' in
    let h2 := setDisplayedContent filteredContent h1 in
    if currentIndex' <? String.length fullContent'
    then scheduleTick {| fullContent := fullContent';
                         currentIndex := currentIndex';
                         sawTypingComplete := sawTypingComplete cl |} h2
    else setIsTypingRef false h2
  else setIsTypingRef false h.

Definition continueTyping (r : Render) (fullContent : string)
    (startIndex : nat) (h : Hook) : Hook :=
  if isTypingRef h then h
  else typeNextChar {| fullContent := fullContent;
                       currentIndex := startIndex;
                       sawTypingComplete := rComplete r |}
         (setIsTypingRef true h).

(** [startTyping]; its calls of the parent's [setChatState] leave the hook
    untouched and are left out. *)
Definition startTyping (r : Render) (fullContent : string)
    (startIndex : nat) (h : Hook) : Hook :=
  if isTypingRef h then h
  else continueTyping r fullContent startIndex
         (setCurrentTypingIndexRef startIndex (setIsTypingRef true h)).

(** The mount effect (dependencies []). *)
Definition mountEffect (storage : gmap string string) (r : Render)
    (h : Hook) : Hook :=
  match storageKey (rProps r) with
  | Some key =>
      if bool_decide (storage !! key = Some "1") then
        let h1 := setTypingDisabledRef true h in
        let h2 := setDisplayedContent (content (rProps r)) h1 in
        let h3 := if isComplete (rProps r)
                  then setIsTypingComplete true h2 else h2 in
        setLastContentRef (content (rProps r)) h3
      else h
  | None => h
  end.

(** The content effect (dependencies [content, isComplete]). *)
Definition contentEffect (r : Render) (h : Hook) : Hook :=
  let content := content (rProps r) in
  if typingDisabledRef h then
    let h1 := setDisplayedContent content h in
    let h2 := setLastContentRef content h1 in
    if isComplete (rProps r) then setIsTypingComplete true h2 else h2
  else if (negb (String.eqb content (lastContentRef h))
           && negb (JS.startsWith content (lastContentRef h)))%bool then
    let h1 := setDisplayedContent EmptyString h in
    let h2 := setIsTypingComplete false h1 in
    let h3 := setIsTypingRef false h2 in
    let h4 := setCurrentTypingIndexRef 0 h3 in
    let h5 := setLastContentRef content h4 in
    if (negb (JS.isEmpty content) && (0 <? String.length content))%bool
    then startTyping r content 0 h5 else h5
  else if ((String.length (lastContentRef h) <? String.length content)
           && JS.startsWith content (lastContentRef h))%bool then
    let newContent := JS.drop (currentTypingIndexRef h) content in
    let h1 := if 0 <? String.length newContent
              then continueTyping r content (currentTypingIndexRef h) h
              else h in
    setLastContentRef content h1
  else h.

(** The cleanup of the unmount effect (dependencies [chatSessionId,
    messageId, isTypingComplete]), with the values its render had. *)
Definition unmountCleanup (r : Render) (storage : gmap string string)
    : gmap string string :=
  match storageKey (rProps r) with
  | Some key =>
      if negb (rComplete r) then <[key := "1"]> storage
      else delete key storage
  | None => storage
  end.

Definition showFinalContentWithCitations (r : Render) (h : Hook) : Hook :=
  let h1 := setDisplayedContent (content (rProps r)) h in
  let h2 := setIsTypingComplete true h1 in
  setCurrentTypingIndexRef (String.length (content (rProps r))) h2.

(** The completion effect (dependencies [isComplete, shared, content,
    setCompleteMessageID, setChatState, chatSessionId]); its calls of the
    parent's setters leave the hook untouched and are left out. *)
Definition completionEffect (r : Render) (h : Hook) : Hook :=
  if (isComplete (rProps r) || shared (rProps r))%bool then
    let h1 := clearPendingTimeout h in
    let h2 := setIsTypingRef false h1 in
    showFinalContentWithCitations r h2
  else h.

(** [handleVisibilityChange] of the visibility effect (dependencies
    [content, isTypingComplete]), with the values its render had. *)
Definition handleVisibilityChange (r : Render) (v : Visibility) (h : Hook)
    : Hook :=
  let content := content (rProps r) in
  match v with
  | Hidden =>
      if (rComplete r || String.eqb content (rDisplayed r))%bool then
        setIsTypingComplete true (setDisplayedContent content h)
      else h
  | Visible =>
      if (negb (rComplete r)
          && (String.length (rDisplayed r) <? String.length content)
          && negb (isTypingRef h))%bool then
        let h1 := clearPendingTimeout h in
        let h2 := setIsTypingRef false h1 in
        let remainingContent :=
          JS.drop (String.length (rDisplayed r)) content in
        if 0 <? String.length remainingContent
        then startTyping r content (String.length (rDisplayed r)) h2
        else h2
      else h
  end.

(** *** Renders and commits *)

Definition contentDepsChanged (old new : Props) : bool :=
  negb (String.eqb (content old) (content new)
        && Bool.eqb (isComplete old) (isComplete new)).

(** The parent's two setter props are taken to keep their identity. *)
Definition completionDepsChanged (old new : Props) : bool :=
  negb (Bool.eqb (isComplete old) (isComplete new)
        && Bool.eqb (shared old) (shared new)
        && String.eqb (content old) (content new)
        && bool_decide (chatSessionId old = chatSessionId new)).

Definition cleanupDepsChanged (old : Render) (new : Render) : bool :=
  negb (bool_decide (chatSessionId (rProps old) = chatSessionId (rProps new))
        && bool_decide (messageId (rProps old) = messageId (rProps new))
        && Bool.eqb (rComplete old) (rComplete new)).

Definition handlerDepsChanged (old : Render) (new : Render) : bool :=
  negb (String.eqb (content (rProps old)) (content (rProps new))
        && Bool.eqb (rComplete old) (rComplete new)).

(** A render after the state or the props changed: the unmount effect and
    the visibility effect run again when their dependencies changed, the
    cleanup of the old unmount effect first. *)
Definition rerender (storage : gmap string string) (m : Mounted) : World :=
  let r := renderOf (props m) (hook m) in
  let cleanupRuns := cleanupDepsChanged (cleanupClosure m) r in
  let handlerRuns := handlerDepsChanged (handlerClosure m) r in
  {| sessionStorage :=
       if cleanupRuns then unmountCleanup (cleanupClosure m) storage
       else storage;
     component :=
       Some {| hook := hook m; props := props m;
               cleanupClosure := if cleanupRuns then r else cleanupClosure m;
               handlerClosure := if handlerRuns then r else handlerClosure m
            |} |}.

(** The first render and its effects, in the order the hook declares them,
    then the render the state changes ask for. *)
Definition mount (storage : gmap string string) (p : Props) : World :=
  let r := renderOf p initialHook in
  let h1 := mountEffect storage r initialHook in
  let h2 := contentEffect r h1 in
  let h3 := completionEffect r h2 in
  rerender storage
    {| hook := h3; props := p; cleanupClosure := r; handlerClosure := r |}.

(** A render with new props: the cleanups of the effects whose dependencies
    changed, then these effects, then the render the state changes ask
    for. *)
Definition update (storage : gmap string string) (m : Mounted) (p : Props)
    : World :=
  let r := renderOf p (hook m) in
  let cleanupRuns := cleanupDepsChanged (cleanupClosure m) r in
  let handlerRuns := handlerDepsChanged (handlerClosure m) r in
  let storage1 :=
    if cleanupRuns then unmountCleanup (cleanupClosure m) storage
    else storage in
  let h1 := if contentDepsChanged (props m) p
            then contentEffect r (hook m) else hook m in
  let h2 := if completionDepsChanged (props m) p
            then completionEffect r h1 else h1 in
  rerender storage1
    {| hook := h2; props := p;
       cleanupClosure := if cleanupRuns then r else cleanupClosure m;
       handlerClosure := if handlerRuns then r else handlerClosure m |}.

Definition findTimer (id : nat) (ts : list (nat * Closure))
    : option Closure :=
  match List.find (fun t => Nat.eqb (fst t) id) ts with
  | Some t => Some (snd t)
  | None => None
  end.

(** The timer [id] fires; a timer that is not pending does nothing. *)
Definition tick (id : nat) (h : Hook) : Hook :=
  match findTimer id (timers h) with
  | Some cl => typeNextChar cl (fireTimer id h)
  | None => h
  end.

Definition withHook (m : Mounted) (h : Hook) : Mounted :=
  {| hook := h; props := props m; cleanupClosure := cleanupClosure m;
     handlerClosure := handlerClosure m |}.

Definition step (w : World) (e : Event) : World :=
  match component w with
  | None => w
  | Some m =>
      match e with
      | Update p => update (sessionStorage w) m p
      | Tick id =>
          rerender (sessionStorage w) (withHook m (tick id (hook m)))
      | VisibilityChange v =>
          rerender (sessionStorage w)
            (withHook m (handleVisibilityChange (handlerClosure m) v (hook m)))
      | Unmount =>
          {| sessionStorage :=
               unmountCleanup (cleanupClosure m) (sessionStorage w);
             component := None |}
      end
  end.

Definition run (w : World) (es : list Event) : World := fold_left step es w.

(** The hook of a world, the initial one when nothing is mounted. *)
Definition hookOf (w : World) : Hook :=
  match component w with
  | Some m => hook m
  | None => initialHook
  end.

Definition revealIndex (w : World) : nat := currentTypingIndexRef (hookOf w).
Definition displayed (w : World) : string := displayedContent (hookOf w).

(** *** Vocabulary of the statements *)


(** The cleanup that is registered belongs to the current render: it has the
    current ids and the current [isTypingComplete].  Every render leaves the
    component in this state. *)
Definition Consistent (m : Mounted) : Prop :=
  chatSessionId (rProps (cleanupClosure m)) = chatSessionId (props m)
  /\ messageId (rProps (cleanupClosure m)) = messageId (props m)
  /\ rComplete (cleanupClosure m) = isTypingComplete (hook m).

(** The typing state while the content only grows: the reveal index is
    within the content, and a pending timer is the one [timeoutRef] holds,
    with the index of the hook and a text no longer than the content. *)
Definition Paced (h : Hook) : Prop :=
  currentTypingIndexRef h <= String.length (lastContentRef h)
  /\ forall id cl, In (id, cl) (timers h) ->
       timeoutRef h = Some id
       /\ isTypingRef h = true
       /\ currentIndex cl = currentTypingIndexRef h
       /\ String.length (fullContent cl) <= String.length (lastContentRef h).




End Typewriter.

(** ** Sample texts

    A sample is written with an apostrophe for the quotation mark and a
    tilde for the newline. *)

Module Sample.

Fixpoint text (s : string) : string :=
  match s with
  | EmptyString => EmptyString
  | String c s' =>
      String (if Ascii.eqb c "'" then "034"%char
              else if Ascii.eqb c "~" then JS.newline else c) (text s')
  end.

Definition message (c : string) (complete : bool) : Typewriter.Props :=
  {| Typewriter.content := c; Typewriter.isComplete := complete;
     Typewriter.shared := false; Typewriter.chatSessionId := Some "S";
     Typewriter.messageId := Some 7%Z |}.

Definition flagKey : string := "disableTyping:S:7".

End Sample.


(** ** Vocabulary of the further properties *)

Module Consumer.
Import Stream.

Section WithParser.
Context {T : Type} `{Parser T}.

(** A read after which [handleStream] goes on: it gave an event or left a
    partial. *)
Definition liveRead (partial : option string) (chunk : string) : bool :=
  let '(completedChunks, partialChunk) :=
    processRawChunkString (T := T) chunk partial in
  negb (Nat.eqb (List.length completedChunks) 0
        && JS.falsyPartial partialChunk).

Fixpoint liveReads (partial : option string) (chunks : list string) : bool :=
  match chunks with
  | [] => true
  | chunk :: rest =>
      liveRead partial chunk
      && liveReads (snd (processRawChunkString (T := T) chunk partial)) rest
  end.

End WithParser.

(** A text made of complete lines. *)
Definition completeLines (lines : list string) : string :=
  joinChunks (List.map (fun l => l +:+ String JS.newline EmptyString) lines).

Definition notBrace (c : ascii) : bool :=
  negb (Ascii.eqb c "{" || Ascii.eqb c "}").

Fixpoint noBraces (s : string) : bool :=
  match s with
  | EmptyString => true
  | String c s' => notBrace c && noBraces s'
  end.

(** An object text without a brace inside. *)
Definition flatObject (hit : string) : Prop :=
  exists body, hit = String "{" (body +:+ "}") /\ noBraces body = true.

End Consumer.

Module Plain.

(** The text contains an opening parenthesis. *)
Fixpoint hasParen (s : string) : bool :=
  match s with
  | EmptyString => false
  | String c s' => Ascii.eqb c "(" || hasParen s'
  end.

(** Every match of the pattern contains an opening parenthesis. *)
Definition needsParen (r : Regex.regex) : Prop :=
  forall (R : Type) (total : nat) (t : string) (k : string -> option R) (x : R),
    Regex.rmatch total r t k = Some x -> hasParen t = true.

End Plain.

Module Session.
Import Typewriter.


(** The events of a component that stays mounted. *)
Definition staysMounted (es : list Event) : bool :=
  forallb (fun e => match e with Unmount => false | _ => true end) es.

(** The hook mirrors the content: typing is disabled, no timer is pending,
    the content is displayed, and the visibility handler has the content
    last rendered. *)
Definition Mirroring (m : Mounted) : Prop :=
  typingDisabledRef (hook m) = true
  /\ timers (hook m) = []
  /\ displayedContent (hook m) = content (props m)
  /\ content (rProps (handlerClosure m)) = content (props m).

(** An event that carries no completion: an update without the completion
    and shared flags, a tick, or the tab becoming visible. *)
Definition quietEvent (e : Event) : bool :=
  match e with
  | Update p => negb (isComplete p || shared p)
  | Tick _ => true
  | VisibilityChange Visible => true
  | _ => false
  end.

(** The timers [1 .. n], each firing once, in order. *)
Definition ticks (n : nat) : list Event := List.map Tick (seq 1 n).

(** The typing of [c] has revealed [j + 1] characters. *)
Definition TypingAt (c : string) (j : nat) (h : Hook) : Prop :=
  displayedContent h = JS.take (S j) c
  /\ currentTypingIndexRef h = S j
  /\ isTypingComplete h = false
  /\ if S j <? String.length c
     then timers h = [(S j, {| fullContent := c; currentIndex := S j;
                               sawTypingComplete := false |})]
          /\ isTypingRef h = true /\ nextTimer h = S (S j)
     else timers h = [].

(** The flag of the props is not stored. *)
Definition unflagged (storage : gmap string string) (p : Props) : Prop :=
  forall key, storageKey p = Some key -> storage !! key <> Some "1".

(** What is displayed is a prefix of [c], and so is the text of every
    pending timer. *)
Definition ShownHook (c : string) (h : Hook) : Prop :=
  String.prefix (displayedContent h) c = true
  /\ forall id cl, In (id, cl) (timers h) ->
       String.prefix (fullContent cl) c = true.

(** The same for a mounted component and the content last rendered, which
    holds no parenthesis. *)
Definition Shown (m : Mounted) : Prop :=
  ShownHook (content (props m)) (hook m)
  /\ lastContentRef (hook m) = content (props m)
  /\ content (rProps (handlerClosure m)) = content (props m)
  /\ Plain.hasParen (content (props m)) = false.

(** An event of a run whose contents only grow and hold no parenthesis; the
    component stays mounted. *)
Definition plainEvent (w : World) (e : Event) : bool :=
  match e, component w with
  | Update p, Some m =>
      JS.startsWith (content p) (content (props m))
      && negb (Plain.hasParen (content p))
  | Tick _, _ => true
  | VisibilityChange _, _ => true
  | _, _ => false
  end.

Fixpoint plainRun (w : World) (es : list Event) : bool :=
  match es with
  | [] => true
  | e :: es' => plainEvent w e && plainRun (step w e) es'
  end.

(** Neither the displayed text nor the text of a pending timer is longer
    than [n]. *)
Definition BoundedHook (n : nat) (h : Hook) : Prop :=
  String.length (displayedContent h) <= n
  /\ forall id cl, In (id, cl) (timers h) ->
       String.length (fullContent cl) <= n.

(** The message is streaming: nothing has marked it complete, the
    visibility handler has the content last rendered and a displayed text
    shorter than it. *)
Definition Streaming (m : Mounted) : Prop :=
  BoundedHook (String.length (content (props m))) (hook m)
  /\ lastContentRef (hook m) = content (props m)
  /\ isTypingComplete (hook m) = false
  /\ rComplete (handlerClosure m) = false
  /\ content (rProps (handlerClosure m)) = content (props m)
  /\ String.length (rDisplayed (handlerClosure m))
     < String.length (content (props m)).

(** An event of a message that streams: an update that extends the content
    and carries neither the completion nor the shared flag, a tick, or a
    change of the visibility of the tab. *)
Definition streamingEvent (w : World) (e : Event) : bool :=
  match e, component w with
  | Update p, Some m =>
      JS.startsWith (content p) (content (props m))
      && negb (isComplete p || shared p)
  | Tick _, _ => true
  | VisibilityChange _, _ => true
  | _, _ => false
  end.

Fixpoint streamingRun (w : World) (es : list Event) : bool :=
  match es with
  | [] => true
  | e :: es' => streamingEvent w e && streamingRun (step w e) es'
  end.

End Session.

(** * Properties *)

(** ** Strings and splitting *)

Module StringFacts.

Lemma sapp_nil_r (s : string) : s +:+ EmptyString = s.
Proof. induction s as [|c s IH]; simpl; [reflexivity | now rewrite IH]. Qed.

Lemma sapp_assoc (a b c : string) : (a +:+ b) +:+ c = a +:+ (b +:+ c).
Proof. induction a as [|x a IH]; simpl; [reflexivity | now rewrite IH]. Qed.

Lemma slen_app (a b : string) :
  String.length (a +:+ b) = String.length a + String.length b.
Proof. induction a as [|x a IH]; simpl; [reflexivity | now rewrite IH]. Qed.

Lemma isEmpty_true (s : string) : JS.isEmpty s = true -> s = EmptyString.
Proof. destruct s; simpl; [reflexivity | discriminate]. Qed.

Lemma isEmpty_app (a b : string) :
  JS.isEmpty a = false -> JS.isEmpty (a +:+ b) = false.
Proof. destruct a; simpl; [discriminate | reflexivity]. Qed.

Lemma take_length (n : nat) (s : string) : String.length (JS.take n s) <= n.
Proof.
  unfold JS.take. revert s.
  induction n as [|n IH]; intros [|c s]; simpl; try lia.
  specialize (IH s). lia.
Qed.

Lemma take_app (a b : string) :
  JS.take (String.length (a +:+ b) - String.length b) (a +:+ b) = a.
Proof.
  rewrite slen_app. replace (_ + _ - _) with (String.length a) by lia.
  unfold JS.take. induction a as [|x a IH]; simpl.
  - destruct b; reflexivity.
  - now rewrite IH.
Qed.

Lemma split_not_nil (d : ascii) (s : string) : JS.split d s <> [].
Proof.
  destruct s as [|c s]; simpl; [discriminate|].
  destruct (Ascii.eqb c d); [discriminate|].
  destruct (JS.split d s); discriminate.
Qed.

Lemma split_hd_tl (d : ascii) (s : string) :
  JS.split d s = hd EmptyString (JS.split d s) :: tl (JS.split d s).
Proof.
  pose proof (split_not_nil d s) as Hne.
  destruct (JS.split d s); [contradiction | reflexivity].
Qed.

Lemma split_last (d : ascii) (s : string) :
  JS.split d s
  = removelast (JS.split d s) ++ [List.last (JS.split d s) EmptyString].
Proof. apply app_removelast_last, split_not_nil. Qed.

(** Splitting a concatenation: the last line of the first text and the first
    line of the second text form one line. *)
Lemma split_app (d : ascii) (a b : string) :
  JS.split d (a +:+ b)
  = removelast (JS.split d a)
    ++ (List.last (JS.split d a) EmptyString
        +:+ hd EmptyString (JS.split d b)) :: tl (JS.split d b).
Proof.
  induction a as [|c a IH].
  - simpl. apply split_hd_tl.
  - simpl. destruct (Ascii.eqb c d).
    + rewrite IH. pose proof (split_not_nil d a) as Hne.
      destruct (JS.split d a) as [|h t]; [contradiction | reflexivity].
    + rewrite IH. pose proof (split_not_nil d a) as Hne.
      destruct (JS.split d a) as [|h [|t1 t2]]; [contradiction | | ];
        reflexivity.
Qed.

Lemma endsWithNewline_split (s : string) :
  JS.endsWithNewline s = true ->
  exists h t, JS.split JS.newline s = h :: t ++ [EmptyString].
Proof.
  induction s as [|c s IH]; simpl; [discriminate|].
  intros Hend. destruct s as [|c' s'].
  - rewrite Hend. exists EmptyString, []. reflexivity.
  - destruct (IH Hend) as (h & t & Hsplit). rewrite Hsplit.
    destruct (Ascii.eqb c JS.newline).
    + exists EmptyString, (h :: t). reflexivity.
    + exists (String c h), t. reflexivity.
Qed.

Lemma endsWithNewline_last (s : string) :
  JS.endsWithNewline s = true ->
  List.last (JS.split JS.newline s) EmptyString = EmptyString.
Proof.
  intros Hend. destruct (endsWithNewline_split s Hend) as (h & t & ->).
  change (h :: t ++ [EmptyString]) with ((h :: t) ++ [EmptyString]).
  apply last_last.
Qed.

Lemma startsWithNewline_hd (s : string) :
  JS.startsWithNewline s = true ->
  hd EmptyString (JS.split JS.newline s) = EmptyString.
Proof.
  destruct s as [|c s]; simpl; [discriminate|].
  intros ->. reflexivity.
Qed.

Lemma startsWithNewline_app (a b : string) :
  JS.isEmpty a = false ->
  JS.startsWithNewline (a +:+ b) = JS.startsWithNewline a.
Proof. destruct a; simpl; [discriminate | reflexivity]. Qed.

End StringFacts.

(** ** The newline-JSON decoder *)

Module ChunkFacts.
Import Stream StringFacts.

Section WithParser.
Context {T : Type} `{Parser T}.

Abbreviation decodeSections := (fold_left (processSection (T := T))).

Lemma processSection_acc (events : list T) (p : option string) (c : string) :
  processSection (events, p) c
  = (events ++ fst (processSection ([], p) c),
     snd (processSection ([], p) c)).
Proof.
  unfold processSection, processSingleChunk.
  destruct (jsonParse (JS.orEmpty p +:+ c)) as [v|]; simpl.
  - destruct (isTruthy v); simpl; [reflexivity | now rewrite app_nil_r].
  - now rewrite app_nil_r.
Qed.

Lemma decodeSections_acc (l : list string) (events : list T)
    (p : option string) :
  decodeSections l (events, p)
  = (events ++ fst (decodeSections l ([], p)),
     snd (decodeSections l ([], p))).
Proof.
  revert events p. induction l as [|c l IH]; intros events p;
    cbn [fold_left fst snd].
  - now rewrite app_nil_r.
  - rewrite processSection_acc.
    destruct (processSection ([], p) c) as [events1 p1].
    cbn [fst snd]. rewrite IH, (IH events1). cbn [fst snd].
    now rewrite <- List.app_assoc.
Qed.

Lemma chunkSections_app (a b : string) :
  chunkSections (a +:+ b)
  = List.filter (fun c => 0 <? String.length c)
      (removelast (JS.split JS.newline a))
    ++ List.filter (fun c => 0 <? String.length c)
         ((List.last (JS.split JS.newline a) EmptyString
           +:+ hd EmptyString (JS.split JS.newline b))
          :: tl (JS.split JS.newline b)).
Proof.
  unfold chunkSections. rewrite split_app. apply List.filter_app.
Qed.

Lemma chunkSections_last (a : string) :
  chunkSections a
  = List.filter (fun c => 0 <? String.length c)
      (removelast (JS.split JS.newline a))
    ++ List.filter (fun c => 0 <? String.length c)
         [List.last (JS.split JS.newline a) EmptyString].
Proof.
  unfold chunkSections. rewrite (split_last JS.newline a) at 1.
  apply List.filter_app.
Qed.

Lemma chunkSections_hd (b : string) :
  chunkSections b
  = List.filter (fun c => 0 <? String.length c)
      (hd EmptyString (JS.split JS.newline b) :: tl (JS.split JS.newline b)).
Proof.
  unfold chunkSections. now rewrite <- (split_hd_tl JS.newline b).
Qed.

(** A section that left a partial behind did not parse, and then the rest of
    its line is decoded as if the line had arrived whole. *)
Lemma processSection_resume (events : list T) (q : option string)
    (la hb : string) :
  JS.falsyPartial (snd (processSection (events, q) la)) = false ->
  processSection (processSection (events, q) la) hb
  = processSection (events, q) (la +:+ hb).
Proof.
  unfold processSection, processSingleChunk.
  destruct (jsonParse (JS.orEmpty q +:+ la)) as [v|] eqn:Hparse; simpl.
  - destruct (isTruthy v); simpl; discriminate.
  - intros _. now rewrite sapp_assoc.
Qed.

Lemma decodeSections_app (l1 l2 : list string) (p : option string) :
  decodeSections (l1 ++ l2) ([], p)
  = (fst (decodeSections l1 ([], p))
       ++ fst (decodeSections l2 ([], snd (decodeSections l1 ([], p)))),
     snd (decodeSections l2 ([], snd (decodeSections l1 ([], p))))).
Proof.
  rewrite fold_left_app.
  destruct (decodeSections l1 ([], p)) as [events q].
  now rewrite decodeSections_acc.
Qed.

(** Decoding a text in two chunks. *)
Lemma processRawChunkString_app (a b : string) (p : option string) :
  JS.isEmpty a = false ->
  JS.isEmpty b = false ->
  (JS.endsWithNewline a || JS.startsWithNewline b
   || negb (JS.falsyPartial (snd (processRawChunkString a p))))%bool = true ->
  processRawChunkString (a +:+ b) p
  = (fst (processRawChunkString a p)
       ++ fst (processRawChunkString b (snd (processRawChunkString a p))),
     snd (processRawChunkString b (snd (processRawChunkString a p)))).
Proof.
  intros Ha Hb Hsafe. unfold processRawChunkString in *.
  rewrite (isEmpty_app a b Ha). rewrite Ha in *. rewrite Hb.
  rewrite chunkSections_app. rewrite (chunkSections_last a) in *.
  rewrite (chunkSections_hd b).
  pose proof (endsWithNewline_last a) as Hends.
  pose proof (startsWithNewline_hd b) as Hstarts.
  set (X := List.filter _ (removelast _)) in *. clearbody X.
  generalize dependent (tl (JS.split JS.newline b)). intros Y.
  generalize dependent (hd EmptyString (JS.split JS.newline b)). intros hb.
  generalize dependent (List.last (JS.split JS.newline a) EmptyString).
  intros la. intros.
  destruct la as [|x la].
  - (* the first chunk ends a line *)
    cbn [List.filter String.length Nat.ltb Nat.leb String.append].
    rewrite app_nil_r. apply decodeSections_app.
  - destruct hb as [|y hb].
    + (* the second chunk starts with a newline *)
      rewrite sapp_nil_r.
      cbn [List.filter String.length Nat.ltb Nat.leb].
      change (X ++ String x la :: List.filter _ Y)
        with (X ++ [String x la] ++ List.filter (fun c => 0 <? String.length c) Y).
      rewrite List.app_assoc. apply decodeSections_app.
    + (* the boundary is inside a line *)
      destruct (JS.endsWithNewline a);
        [specialize (Hends eq_refl); discriminate|].
      destruct (JS.startsWithNewline b);
        [specialize (Hstarts eq_refl); discriminate|].
      cbn [orb] in Hsafe. apply negb_true_iff in Hsafe.
      cbn [List.filter String.length Nat.ltb Nat.leb String.append] in *.
      rewrite <- decodeSections_app.
      rewrite fold_left_app in Hsafe. rewrite <- List.app_assoc.
      rewrite !fold_left_app. cbn [fold_left app] in *.
      destruct (decodeSections X ([], p)) as [events q].
      now rewrite (processSection_resume _ _ _ (String y hb) Hsafe).
Qed.

Lemma joinChunks_app (l1 l2 : list string) :
  joinChunks (l1 ++ l2) = joinChunks l1 +:+ joinChunks l2.
Proof.
  induction l1 as [|c l1 IH]; simpl; [reflexivity|].
  now rewrite IH, sapp_assoc.
Qed.

Lemma joinChunks_nonEmpty (l : list string) :
  joinChunks (List.filter (fun c => 0 <? String.length c) l) = joinChunks l.
Proof.
  induction l as [|c l IH]; simpl; [reflexivity|].
  destruct c as [|x c]; simpl; [exact IH | now rewrite IH].
Qed.

Lemma joinChunks_split (s : string) :
  joinChunks (JS.split JS.newline s) = JS.removeNewlines s.
Proof.
  induction s as [|c s IH]; simpl; [reflexivity|].
  destruct (Ascii.eqb c JS.newline); simpl; [exact IH|].
  pose proof (split_not_nil JS.newline s) as Hne.
  destruct (JS.split JS.newline s) as [|h t]; [contradiction|].
  simpl in *. now rewrite IH.
Qed.

Lemma joinChunks_sections (s : string) :
  joinChunks (chunkSections s) = JS.removeNewlines s.
Proof.
  unfold chunkSections. now rewrite joinChunks_nonEmpty, joinChunks_split.
Qed.

Lemma removeNewlines_app (a b : string) :
  JS.removeNewlines (a +:+ b) = JS.removeNewlines a +:+ JS.removeNewlines b.
Proof.
  induction a as [|c a IH]; simpl; [reflexivity|].
  destruct (Ascii.eqb c JS.newline); simpl; now rewrite IH.
Qed.

Lemma processSection_unit (p : option string) (c : string) :
  processSection ([], p) c
  = (eventOf (JS.orEmpty p +:+ c),
     match jsonParse (T := T) (JS.orEmpty p +:+ c) with
     | Some _ => None
     | None => Some (JS.orEmpty p +:+ c)
     end).
Proof.
  unfold processSection, processSingleChunk, eventOf.
  destruct (jsonParse (JS.orEmpty p +:+ c)) as [v|]; [|reflexivity].
  destruct (isTruthy v); reflexivity.
Qed.

(** The sections decoded so far are accounted for: the units that parsed,
    then the partial. *)
Lemma decodeSections_units (l : list string) (p : option string) :
  exists units : list string,
    Forall (fun u => jsonParse (T := T) u <> None) units
    /\ fst (decodeSections l ([], p)) = flat_map eventOf units
    /\ joinChunks units +:+ JS.orEmpty (snd (decodeSections l ([], p)))
       = JS.orEmpty p +:+ joinChunks l.
Proof.
  revert p. induction l as [|c l IH]; intros p.
  - exists []. simpl. now rewrite sapp_nil_r.
  - cbn [fold_left]. rewrite processSection_unit, decodeSections_acc.
    cbn [fst snd joinChunks fold_right]. fold (joinChunks l).
    destruct (jsonParse (JS.orEmpty p +:+ c)) as [v|] eqn:Hparse.
    + destruct (IH None) as (units & Hunits & Hevents & Htext).
      exists ((JS.orEmpty p +:+ c) :: units). split; [|split].
      * constructor; [congruence | exact Hunits].
      * cbn [flat_map]. now rewrite Hevents.
      * cbn [joinChunks fold_right]. fold (joinChunks units).
        rewrite !sapp_assoc. cbn [JS.orEmpty String.append] in Htext.
        now rewrite Htext.
    + destruct (IH (Some (JS.orEmpty p +:+ c)))
        as (units & Hunits & Hevents & Htext).
      exists units. split; [exact Hunits | split].
      * unfold eventOf at 1. rewrite Hparse. exact Hevents.
      * rewrite Htext. cbn [JS.orEmpty]. now rewrite sapp_assoc.
Qed.

Lemma decodeChunks_units (chunks : list string) (p : option string) :
  Forall (fun c => JS.isEmpty c = false) chunks ->
  exists units : list string,
    Forall (fun u => jsonParse (T := T) u <> None) units
    /\ fst (decodeChunks p chunks) = flat_map eventOf units
    /\ joinChunks units +:+ JS.orEmpty (snd (decodeChunks p chunks))
       = JS.orEmpty p +:+ JS.removeNewlines (joinChunks chunks).
Proof.
  intros Hne. revert p. induction Hne as [|c chunks Hc _ IH]; intros p.
  - exists []. simpl. now rewrite sapp_nil_r.
  - assert (Hdec : processRawChunkString c p
                   = decodeSections (chunkSections c) ([], p))
      by (unfold processRawChunkString; now rewrite Hc).
    cbn [decodeChunks]. rewrite Hdec.
    destruct (decodeSections_units (chunkSections c) p)
      as (units1 & Hunits1 & Hevents1 & Htext1).
    destruct (decodeSections (chunkSections c) ([], p)) as [events1 p1].
    destruct (IH p1) as (units2 & Hunits2 & Hevents2 & Htext2).
    destruct (decodeChunks p1 chunks) as [later final].
    cbn [fst snd] in *. exists (units1 ++ units2). split; [|split].
    + apply Forall_app. split; assumption.
    + now rewrite flat_map_app, Hevents1, Hevents2.
    + rewrite joinChunks_app, sapp_assoc, Htext2, <- sapp_assoc, Htext1.
      rewrite joinChunks_sections. cbn [joinChunks fold_right].
      now rewrite removeNewlines_app, sapp_assoc.
Qed.

(** Sequential decoding of a tolerated split. *)
Lemma decodeChunks_join (chunks : list string) (p : option string) :
  chunks <> [] ->
  safeSplit p chunks = true ->
  decodeChunks p chunks = processRawChunkString (joinChunks chunks) p.
Proof.
  revert p. induction chunks as [|c rest IH]; intros p Hne Hsafe;
    [contradiction|].
  cbn [safeSplit] in Hsafe. apply andb_true_iff in Hsafe as [Hc Hrest].
  apply negb_true_iff in Hc.
  destruct rest as [|next rest'].
  - cbn [decodeChunks joinChunks fold_right]. rewrite sapp_nil_r.
    destruct (processRawChunkString c p) as [events p'].
    now rewrite app_nil_r.
  - apply andb_true_iff in Hrest as [Hboundary Hsafe'].
    assert (Hnext : JS.isEmpty next = false).
    { cbn [safeSplit] in Hsafe'. apply andb_true_iff in Hsafe' as [Hn _].
      now apply negb_true_iff in Hn. }
    change (joinChunks (c :: next :: rest'))
      with (c +:+ joinChunks (next :: rest')).
    rewrite processRawChunkString_app.
    + rewrite <- IH by (assumption || discriminate).
      cbn [decodeChunks].
      destruct (processRawChunkString c p) as [events p']. cbn [fst snd].
      destruct (processRawChunkString next p') as [events' p''].
      destruct (decodeChunks p'' rest') as [later final]. reflexivity.
    + exact Hc.
    + cbn [joinChunks fold_right]. now apply isEmpty_app.
    + change (joinChunks (next :: rest'))
        with (next +:+ joinChunks rest').
      now rewrite startsWithNewline_app.
Qed.

End WithParser.
End ChunkFacts.

(** ** The matcher *)

Module RegexFacts.
Import Regex StringFacts.

(** Whatever a pattern matches is a prefix of the subject: the continuation
    receives a suffix. *)
Lemma rmatch_suffix {R : Type} (total : nat) (r : regex) :
  forall (s : string) (k : string -> option R) (x : R),
    rmatch total r s k = Some x ->
    exists pre rest, s = pre +:+ rest /\ k rest = Some x.
Proof.
  induction r as [| |f|r1 IH1 r2 IH2|r1 IH1 r2 IH2|r1 IH1];
    intros s k x Hm; cbn [rmatch] in Hm.
  - exists EmptyString, s. auto.
  - destruct (String.length s =? total); [|discriminate].
    exists EmptyString, s. auto.
  - destruct s as [|c s]; [discriminate|].
    destruct (f c); [|discriminate].
    exists (String c EmptyString), s. auto.
  - apply IH1 in Hm as (pre1 & s1 & -> & Hm).
    apply IH2 in Hm as (pre2 & s2 & -> & Hk).
    exists (pre1 +:+ pre2), s2. now rewrite sapp_assoc.
  - destruct (rmatch total r1 s k) eqn:H1.
    + injection Hm as ->. now apply IH1 in H1.
    + now apply IH2 in Hm.
  - revert Hm. generalize (String.length s) at 1. intros fuel. revert s.
    induction fuel as [|fuel IHf]; intros s Hm.
    + exists EmptyString, s. auto.
    + match type of Hm with
      | match ?m with _ => _ end = _ => destruct m eqn:H1
      end.
      * injection Hm as ->.
        apply IH1 in H1 as (pre1 & s1 & -> & H1).
        destruct (String.length s1 <? String.length (pre1 +:+ s1));
          [|discriminate].
        apply IHf in H1 as (pre2 & s2 & -> & Hk).
        exists (pre1 +:+ pre2), s2. now rewrite sapp_assoc.
      * exists EmptyString, s. auto.
Qed.

(** A pattern that begins with a character consumes at least that one. *)
Lemma rmatch_chr_first {R : Type} (total : nat) (c : ascii) (r : regex)
    (s : string) (k : string -> option R) (x : R) :
  rmatch total (Seq (Chr c) r) s k = Some x ->
  exists pre rest, s = String c pre +:+ rest /\ k rest = Some x.
Proof.
  cbn [rmatch Chr]. destruct s as [|c' s]; [discriminate|].
  destruct (Ascii.eqb c c') eqn:Hc; [|discriminate].
  apply Ascii.eqb_eq in Hc as <-. intros Hm.
  apply rmatch_suffix in Hm as (pre & rest & -> & Hk).
  exists pre, rest. auto.
Qed.

Section Replace.
Variable m : string -> option (string * string).
Hypothesis m_shrinks : forall s rep rest,
  m s = Some (rep, rest) ->
  String.length rep + String.length rest < String.length s.

(** A replacement that shrinks every match leaves the text as it is or makes
    it shorter. *)
Lemma replaceLoop_shrinks (fuel : nat) (s : string) :
  replaceLoop m fuel s = s
  \/ String.length (replaceLoop m fuel s) < String.length s.
Proof.
  revert s. induction fuel as [|fuel IH]; intros s; cbn [replaceLoop];
    [now left|].
  destruct (m s) as [[rep rest]|] eqn:Hm.
  - right. apply m_shrinks in Hm.
    assert (Hlt : (String.length rest <? String.length s) = true)
      by (apply Nat.ltb_lt; lia).
    rewrite Hlt, slen_app.
    destruct (IH rest) as [-> | Hl]; lia.
  - destruct s as [|c s]; [now left|].
    destruct (IH s) as [-> | Hl]; [now left | right; simpl; lia].
Qed.

End Replace.

Lemma replaceAll_shrinks (a : attempt) (s : string) :
  (forall total t rep rest,
      a total t = Some (rep, rest) ->
      String.length rep + String.length rest < String.length t) ->
  replaceAll a s = s \/ String.length (replaceAll a s) < String.length s.
Proof.
  intros Ha. unfold replaceAll. apply replaceLoop_shrinks.
  intros t rep rest. apply Ha.
Qed.

Lemma erase_shrinks (c : ascii) (r : regex) (total : nat) (t rep rest : string) :
  erase (Seq (Chr c) r) total t = Some (rep, rest) ->
  String.length rep + String.length rest < String.length t.
Proof.
  unfold erase. intros Hm.
  apply rmatch_chr_first in Hm as (pre & rest' & -> & Hk).
  injection Hk as Hrep Hrest. subst rep rest'. rewrite slen_app. simpl. lia.
Qed.

Lemma keepGroup1_shrinks (g : regex) (c : ascii) (r : regex) (total : nat)
    (t rep rest : string) :
  keepGroup1 g (Seq (Chr c) r) total t = Some (rep, rest) ->
  String.length rep + String.length rest < String.length t.
Proof.
  unfold keepGroup1. intros Hm.
  apply rmatch_suffix in Hm as (pre1 & s1 & -> & Hm).
  apply rmatch_chr_first in Hm as (pre2 & rest' & -> & Hk).
  injection Hk as Hrep Hrest. subst rep rest'.
  pose proof (take_length
    (String.length (pre1 +:+ String c pre2 +:+ rest)
     - String.length (String c pre2 +:+ rest))
    (pre1 +:+ String c pre2 +:+ rest)) as Htake.
  rewrite !slen_app in *. simpl in *. rewrite !slen_app in *. lia.
Qed.

Section Matches.
Variable m : string -> option string.
Hypothesis m_suffix : forall s rest,
  m s = Some rest -> exists pre, s = pre +:+ rest.

(** The matches are found from left to right. *)
Lemma matchLoop_in_order (fuel : nat) (s : string) :
  JS.occursInOrder (matchLoop m fuel s) s.
Proof.
  revert s. induction fuel as [|fuel IH]; intros s; cbn [matchLoop];
    [constructor|].
  destruct (m s) as [rest|] eqn:Hm.
  - destruct (m_suffix _ _ Hm) as (pre & ->).
    rewrite take_app.
    destruct (String.length rest <? String.length (pre +:+ rest)) eqn:Hlt.
    + apply (JS.occurs_next EmptyString pre _ rest), IH.
    + apply Nat.ltb_ge in Hlt. rewrite slen_app in Hlt.
      assert (pre = EmptyString) as ->
        by (destruct pre; [reflexivity | simpl in Hlt; lia]).
      cbn [String.append]. destruct rest as [|c rest].
      * apply (JS.occurs_next EmptyString EmptyString [] EmptyString).
        constructor.
      * specialize (IH rest).
        apply (JS.occurs_next EmptyString EmptyString _ (String c rest)).
        destruct (matchLoop m fuel rest) as [|hit hits]; [constructor|].
        inversion IH as [|gap ? ? rest' Hrest]; subst.
        apply (JS.occurs_next (String c gap) hit hits rest'), Hrest.
  - destruct s as [|c s]; [constructor|].
    specialize (IH s).
    destruct (matchLoop m fuel s) as [|hit hits]; [constructor|].
    inversion IH as [|gap ? ? rest' Hrest]; subst.
    apply (JS.occurs_next (String c gap) hit hits rest'), Hrest.
Qed.

End Matches.

Lemma matchAll_in_order (r : regex) (s : string) (hits : list string) :
  matchAll r s = Some hits -> JS.occursInOrder hits s.
Proof.
  unfold matchAll. intros Hm.
  assert (Hin : JS.occursInOrder
            (matchLoop (fun t => rmatch (String.length s) r t Some)
               (S (String.length s)) s) s).
  { apply matchLoop_in_order. intros t rest Ht.
    apply rmatch_suffix in Ht as (pre & rest' & -> & Hk).
    injection Hk as ->. now exists pre. }
  destruct (matchLoop _ _ s); [discriminate|].
  now injection Hm as <-.
Qed.

End RegexFacts.

(** ** The citation filter *)

Module CitationFacts.
Import Regex Citations RegexFacts StringFacts.

Lemma doubleBracket_shrinks (total : nat) (t rep rest : string) :
  erase doubleBracketCitation total t = Some (rep, rest) ->
  String.length rep + String.length rest < String.length t.
Proof. apply (erase_shrinks "["%char). Qed.

Lemma numeric_shrinks (total : nat) (t rep rest : string) :
  erase numericCitation total t = Some (rep, rest) ->
  String.length rep + String.length rest < String.length t.
Proof. apply (erase_shrinks "["%char). Qed.

Lemma orphan_shrinks (total : nat) (t rep rest : string) :
  keepGroup1 orphanLead orphanUrl total t = Some (rep, rest) ->
  String.length rep + String.length rest < String.length t.
Proof. apply (keepGroup1_shrinks orphanLead "("%char). Qed.

(** The filter only removes text. *)
Lemma filter_shrinks (s : string) :
  filterCitationsForTyping s = s
  \/ String.length (filterCitationsForTyping s) < String.length s.
Proof.
  unfold filterCitationsForTyping.
  destruct (replaceAll_shrinks _ s doubleBracket_shrinks) as [-> | H1].
  - destruct (replaceAll_shrinks _ s numeric_shrinks) as [-> | H2].
    + apply replaceAll_shrinks, orphan_shrinks.
    + right.
      destruct (replaceAll_shrinks _
                  (replaceAll (erase numericCitation) s) orphan_shrinks)
        as [-> | H3]; lia.
  - right.
    set (s1 := replaceAll (erase doubleBracketCitation) s) in *.
    destruct (replaceAll_shrinks _ s1 numeric_shrinks) as [-> | H2].
    + destruct (replaceAll_shrinks _ s1 orphan_shrinks) as [-> | H3]; lia.
    + destruct (replaceAll_shrinks _
                  (replaceAll (erase numericCitation) s1) orphan_shrinks)
        as [-> | H3]; lia.
Qed.

Lemma filter_length (s : string) :
  String.length (filterCitationsForTyping s) <= String.length s.
Proof. destruct (filter_shrinks s) as [-> | H]; lia. Qed.

Lemma filter_fixed_iter (n : nat) (s : string) :
  filterCitationsForTyping s = s ->
  Nat.iter n filterCitationsForTyping s = s.
Proof. intros Hfix. induction n as [|n IH]; simpl; congruence. Qed.

Lemma iter_shift (n : nat) (s : string) :
  Nat.iter n filterCitationsForTyping (filterCitationsForTyping s)
  = filterCitationsForTyping (Nat.iter n filterCitationsForTyping s).
Proof. induction n as [|n IH]; simpl; congruence. Qed.

(** A text is stable after as many applications as it has characters. *)
Lemma filter_stabilises (n : nat) (s : string) :
  String.length s <= n ->
  filterCitationsForTyping (Nat.iter n filterCitationsForTyping s)
  = Nat.iter n filterCitationsForTyping s.
Proof.
  revert s. induction n as [|n IH]; intros s Hlen.
  - simpl. destruct (filter_shrinks s) as [Heq | Hlt]; [exact Heq | lia].
  - destruct (filter_shrinks s) as [Heq | Hlt].
    + now rewrite (filter_fixed_iter _ s Heq).
    + change (Nat.iter (S n) filterCitationsForTyping s)
        with (filterCitationsForTyping (Nat.iter n filterCitationsForTyping s)).
      rewrite <- iter_shift. apply IH. lia.
Qed.

End CitationFacts.

(** ** The SSE decoder *)

Module SseFacts.
Import Stream StringFacts RegexFacts.

Lemma split_lines_no_newline (s : string) :
  Forall (fun l => JS.hasNewline l = false) (JS.split JS.newline s).
Proof.
  induction s as [|c s IH]; simpl; [repeat constructor|].
  destruct (Ascii.eqb c JS.newline) eqn:Hc; [now constructor|].
  destruct (JS.split JS.newline s) as [|h t]; [repeat constructor; simpl; now rewrite Hc|].
  inversion IH as [|? ? Hh Ht]; subst. constructor; [|exact Ht].
  simpl. now rewrite Hc.
Qed.

Lemma split_no_newline (s : string) :
  JS.hasNewline s = false -> JS.split JS.newline s = [s].
Proof.
  induction s as [|c s IH]; simpl; [reflexivity|].
  intros Hs. apply orb_false_iff in Hs as [Hc Hs].
  now rewrite Hc, (IH Hs).
Qed.

Lemma last_split_no_newline (s : string) :
  JS.hasNewline (List.last (JS.split JS.newline s) EmptyString) = false.
Proof.
  pose proof (split_lines_no_newline s) as Hall.
  rewrite (split_last JS.newline s) in Hall.
  apply Forall_app in Hall as [_ Hlast]. now inversion Hlast.
Qed.

(** A text continued after a newline splits into the lines of both parts. *)
Lemma split_after_newline (before after : string) :
  JS.split JS.newline (before +:+ String JS.newline after)
  = JS.split JS.newline before ++ JS.split JS.newline after.
Proof.
  rewrite split_app. cbn [JS.split]. rewrite Ascii.eqb_refl.
  cbn [hd tl]. rewrite sapp_nil_r.
  rewrite (split_last JS.newline before) at 3.
  now rewrite <- List.app_assoc.
Qed.

(** Splitting buffer and rest: the complete lines of the buffer, then the
    lines of its last line continued by the rest. *)
Lemma split_buffer (text rest : string) :
  JS.split JS.newline (text +:+ rest)
  = removelast (JS.split JS.newline text)
    ++ JS.split JS.newline
         (List.last (JS.split JS.newline text) EmptyString +:+ rest).
Proof.
  rewrite (split_app _ (List.last _ _) rest).
  rewrite (split_no_newline _ (last_split_no_newline text)).
  cbn [removelast List.last app]. apply split_app.
Qed.

Section WithParser.
Context {T : Type} `{Parser T}.

Lemma sseFlush_line (buffer : string) : sseFlush (T := T) buffer = sseLine buffer.
Proof. unfold sseFlush, sseLine. now destruct (JS.trimIsEmpty buffer). Qed.

Lemma sseLoop_lines (chunks : list string) (buffer : string) :
  JS.hasNewline buffer = false ->
  snd (sseLoop (T := T) buffer (reads chunks)) = Finished
  /\ fst (fst (sseLoop buffer (reads chunks)))
       ++ sseLine (snd (fst (sseLoop buffer (reads chunks))))
     = flat_map sseLine (JS.split JS.newline (buffer +:+ joinChunks chunks)).
Proof.
  revert buffer. induction chunks as [|c chunks IH]; intros buffer Hbuf.
  - cbn. rewrite sapp_nil_r, (split_no_newline _ Hbuf). cbn.
    now rewrite app_nil_r.
  - cbn [reads List.map sseLoop joinChunks fold_right].
    fold (reads chunks). fold (joinChunks chunks). unfold sseRead.
    specialize (IH _ (last_split_no_newline (buffer +:+ c))).
    destruct (sseLoop _ (reads chunks)) as [[later final] outcome].
    cbn [fst snd] in *. destruct IH as [-> IH]. split; [reflexivity|].
    rewrite <- List.app_assoc, IH, <- sapp_assoc.
    rewrite (split_buffer (buffer +:+ c) (joinChunks chunks)).
    now rewrite flat_map_app.
Qed.

(** The SSE decoder sees the lines of the whole text, however it was cut
    into chunks. *)
Lemma handleSSEStream_lines (chunks : list string) :
  handleSSEStream (T := T) (reads chunks)
  = (flat_map sseLine (JS.split JS.newline (joinChunks chunks)), Finished).
Proof.
  unfold handleSSEStream.
  destruct (sseLoop_lines chunks EmptyString eq_refl) as [Hout Hev].
  destruct (sseLoop _ (reads chunks)) as [[events final] outcome].
  cbn [fst snd] in *. subst outcome.
  now rewrite sseFlush_line, Hev.
Qed.

Lemma handleStreamFrom_finishes (chunks : list string) (p : option string) :
  snd (handleStreamFrom (T := T) p (reads chunks)) = Finished.
Proof.
  revert p. induction chunks as [|c chunks IH]; intros p; [reflexivity|].
  cbn [reads List.map handleStreamFrom]. fold (reads chunks).
  destruct (processRawChunkString c p) as [completed partial].
  destruct (_ && _)%bool; [reflexivity|].
  specialize (IH partial).
  destruct (handleStreamFrom partial (reads chunks)). exact IH.
Qed.

Lemma sseLine_data (payload : string) (v : T) :
  jsonParse payload = Some v -> sseLine ("data: " +:+ payload) = [v].
Proof.
  intros Hparse. unfold sseLine.
  change (JS.trimIsEmpty ("data: " +:+ payload)) with false.
  replace (JS.startsWith ("data: " +:+ payload) "data: ") with true
    by (destruct payload; reflexivity).
  change (JS.drop 6 ("data: " +:+ payload)) with payload.
  unfold sseData. now rewrite Hparse.
Qed.

Lemma dataLines_cons (payload : string) (payloads : list string) :
  dataLines (payload :: payloads)
  = ("data: " +:+ payload) +:+ String JS.newline (dataLines payloads).
Proof.
  unfold dataLines, dataLine. cbn [List.map joinChunks fold_right].
  now rewrite !sapp_assoc.
Qed.

Lemma dataLines_events (payloads : list string) (values : list T) :
  Forall2 (fun payload v =>
             JS.hasNewline payload = false /\ jsonParse payload = Some v)
    payloads values ->
  flat_map sseLine (JS.split JS.newline (dataLines payloads)) = values.
Proof.
  induction 1 as [|payload v payloads values [Hnl Hparse] _ IH];
    [reflexivity|].
  rewrite dataLines_cons, split_after_newline, flat_map_app, IH.
  rewrite split_no_newline by (cbn; exact Hnl).
  cbn [flat_map]. rewrite (sseLine_data _ _ Hparse). reflexivity.
Qed.

(** What the fallback yields are parsed matches, taken from left to right. *)
Lemma sseData_in_order (payload : string) :
  exists hits : list string,
    JS.occursInOrder hits payload
    /\ sseData (T := T) payload
       = match jsonParse payload with
         | Some data => [data]
         | None => parseEach hits
         end.
Proof.
  unfold sseData.
  destruct (Regex.matchAll braceObject payload) as [hits|] eqn:Hm.
  - exists hits. split; [now apply matchAll_in_order in Hm | reflexivity].
  - exists []. split; [constructor | reflexivity].
Qed.

End WithParser.
End SseFacts.

(** ** The typewriter *)

Module TypewriterFacts.
Import Typewriter Citations CitationFacts StringFacts.

#[local] Arguments filterCitationsForTyping : simpl never.

Lemma prefix_empty (s : string) : String.prefix EmptyString s = true.
Proof. destruct s; reflexivity. Qed.

Lemma prefix_refl (s : string) : String.prefix s s = true.
Proof.
  induction s as [|c s IH]; simpl; [reflexivity|].
  destruct (ascii_dec c c); [exact IH | contradiction].
Qed.

Lemma prefix_length (a b : string) :
  String.prefix a b = true -> String.length a <= String.length b.
Proof.
  revert b. induction a as [|c a IH]; intros [|d b]; simpl;
    try lia; try discriminate.
  destruct (ascii_dec c d); [|discriminate].
  intros Hp. specialize (IH _ Hp). lia.
Qed.

Lemma prefix_same_length (a b : string) :
  String.prefix a b = true -> String.length b <= String.length a -> a = b.
Proof.
  revert b. induction a as [|c a IH]; intros [|d b]; simpl;
    try reflexivity; try discriminate; try lia.
  destruct (ascii_dec c d) as [->|]; [|discriminate].
  intros Hp Hl. f_equal. apply IH; [exact Hp | lia].
Qed.

Lemma findTimer_In (id : nat) (ts : list (nat * Closure)) (cl : Closure) :
  findTimer id ts = Some cl -> In (id, cl) ts.
Proof.
  unfold findTimer. destruct (List.find _ ts) as [[id' cl']|] eqn:Hf;
    [|discriminate].
  intros Heq. injection Heq as <-.
  apply List.find_some in Hf as [Hin Hid]. simpl in Hid.
  apply Nat.eqb_eq in Hid. now subst id'.
Qed.









Lemma paced_initial : Paced initialHook.
Proof. split; cbn; [lia | intros tid cl []]. Qed.

Lemma mountEffect_paced (storage : gmap string string) (r : Render) :
  Paced (mountEffect storage r initialHook)
  /\ JS.startsWith (content (rProps r))
       (lastContentRef (mountEffect storage r initialHook)) = true.
Proof.
  unfold mountEffect.
  destruct (storageKey (rProps r)) as [key|];
    [destruct (bool_decide _)|];
    try (split; [apply paced_initial | apply prefix_empty]).
  destruct (isComplete (rProps r)); cbn;
    (split; [split; cbn; [lia | intros tid cl []] | apply prefix_refl]).
Qed.


Lemma contentDeps_same (old new : Props) :
  contentDepsChanged old new = false -> content old = content new.
Proof.
  unfold contentDepsChanged. intros Hsame.
  apply negb_false_iff, andb_true_iff in Hsame as [Hc _].
  now apply String.eqb_eq.
Qed.






End TypewriterFacts.

(** ** Completion and the interrupt flag *)

Module CompletionFacts.
Import Typewriter StringFacts TypewriterFacts.

#[local] Arguments Citations.filterCitationsForTyping : simpl never.









Lemma cleanupDeps_consistent (old : Render) (p : Props) (h : Hook) :
  cleanupDepsChanged old (renderOf p h) = false ->
  chatSessionId (rProps old) = chatSessionId p
  /\ messageId (rProps old) = messageId p
  /\ rComplete old = isTypingComplete h.
Proof.
  unfold cleanupDepsChanged. intros Hsame.
  apply negb_false_iff in Hsame.
  apply andb_true_iff in Hsame as [Hsame Hc].
  apply andb_true_iff in Hsame as [Hs Hm].
  apply bool_decide_eq_true_1 in Hs, Hm. apply Bool.eqb_prop in Hc.
  repeat split; assumption.
Qed.

(** Every render leaves the registered cleanup up to date. *)
Lemma rerender_consistent (storage : gmap string string) (m : Mounted) :
  exists m', component (rerender storage m) = Some m'
             /\ Consistent m' /\ hook m' = hook m /\ props m' = props m.
Proof.
  eexists. split; [reflexivity|]. unfold Consistent.
  cbn [hook props cleanupClosure].
  split; [|split; reflexivity].
  destruct (cleanupDepsChanged _ _) eqn:E.
  - repeat split.
  - now apply cleanupDeps_consistent in E.
Qed.

Lemma mount_consistent (storage : gmap string string) (p : Props) :
  exists m, component (mount storage p) = Some m
            /\ Consistent m /\ props m = p.
Proof.
  unfold mount.
  destruct (rerender_consistent storage
    {| hook := completionEffect (renderOf p initialHook)
                 (contentEffect (renderOf p initialHook)
                    (mountEffect storage (renderOf p initialHook) initialHook));
       props := p;
       cleanupClosure := renderOf p initialHook;
       handlerClosure := renderOf p initialHook |})
    as (m' & Hm & Hc & _ & Hp).
  exists m'. split; [exact Hm | split; [exact Hc | exact Hp]].
Qed.

(** The storage after an unmount. *)
Lemma unmount_flag (w : World) (m : Mounted) (key : string) :
  component w = Some m ->
  Consistent m ->
  storageKey (props m) = Some key ->
  sessionStorage (step w Unmount) !! key
  = if isTypingComplete (hook m) then None else Some "1".
Proof.
  intros Hm (Hs & Hi & Hc) Hkey. unfold step. rewrite Hm.
  cbn [sessionStorage]. unfold unmountCleanup.
  assert (Hkey' : storageKey (rProps (cleanupClosure m)) = Some key)
    by (unfold storageKey in *; now rewrite Hs, Hi).
  rewrite Hkey', Hc.
  destruct (isTypingComplete (hook m)); cbn.
  - apply lookup_delete_eq.
  - apply lookup_insert_eq.
Qed.

(** The hook after a mount that finds the flag. *)
Lemma mount_disabled (storage : gmap string string) (p : Props) (key : string) :
  storageKey p = Some key ->
  storage !! key = Some "1" ->
  displayed (mount storage p) = content p
  /\ timers (hookOf (mount storage p)) = []
  /\ typingDisabledRef (hookOf (mount storage p)) = true
  /\ isTypingComplete (hookOf (mount storage p))
     = (isComplete p || shared p)%bool
  /\ sessionStorage (mount storage p) !! key = Some "1".
Proof.
  intros Hkey Hflag. unfold displayed, hookOf, mount.
  cbn [rerender component hook sessionStorage].
  unfold mountEffect. cbn [renderOf rProps]. rewrite Hkey.
  rewrite bool_decide_eq_true_2 by exact Hflag.
  unfold contentEffect, completionEffect, showFinalContentWithCitations,
    clearPendingTimeout, cleanupDepsChanged, unmountCleanup.
  cbn [renderOf rProps rComplete rDisplayed].
  destruct (isComplete p), (shared p); cbn;
    rewrite ?Hkey; cbn;
    rewrite ?bool_decide_eq_true_2 by reflexivity; cbn;
    repeat split; try assumption; try apply lookup_insert_eq.
Qed.

Lemma visibility_never_schedules (r : Render) (v : Visibility) (h : Hook) :
  nextTimer (handleVisibilityChange r v h) = nextTimer h.
Proof.
  unfold handleVisibilityChange. destruct v.
  - destruct (_ || _)%bool; reflexivity.
  - destruct (_ && _ && _)%bool; [|reflexivity].
    unfold clearPendingTimeout, startTyping, continueTyping.
    destruct (timeoutRef h); cbn;
      repeat match goal with
             | |- context [if ?b then _ else _] => destruct b
             end; reflexivity.
Qed.

End CompletionFacts.

(** * The claims of the specification *)

Import Stream Typewriter Sample.

(** ** C1: chunk boundaries of the newline-JSON decoder *)

(** C1, as stated, fails: two objects on one line are no event when they
    arrive in one chunk and two events when the chunk boundary separates
    them. *)
Lemma chunk_boundary_counterexample :
  fst (decodeChunks (T := Json.value) None
         [text "{'a':1}"; text "{'b':2}"])
  <> fst (processRawChunkString
            (joinChunks [text "{'a':1}"; text "{'b':2}"]) None).
Proof. vm_compute. discriminate. Qed.

(** C1 (amended): for every text and every split of it into chunks, none of
    them empty, in which every chunk boundary lies next to a newline or at a
    point where the decoder holds a partial, decoding the chunks one after
    the other from a null partial yields the events, in the same order, and
    the partial of decoding the whole text in one call. *)
Theorem chunk_boundary_invariance {T : Type} `{Parser T}
    (chunks : list string) :
  safeSplit None chunks = true ->
  decodeChunks None chunks
  = processRawChunkString (joinChunks chunks) None.
Proof.
  destruct chunks as [|c rest]; [reflexivity|].
  intros Hsafe. now apply ChunkFacts.decodeChunks_join.
Qed.

Lemma chunk_boundary_invariance_witness :
  safeSplit (T := Json.value) None [text "{'a'"; text ":1}~{'b':2}~"] = true
  /\ decodeChunks (T := Json.value) None [text "{'a'"; text ":1}~{'b':2}~"]
     = processRawChunkString
         (joinChunks [text "{'a'"; text ":1}~{'b':2}~"]) None.
Proof.
  split; [vm_compute; reflexivity|].
  apply (chunk_boundary_invariance (T := Json.value)). vm_compute. reflexivity.
Defined.

(** ** C6: the empty chunk *)

(** C6, as stated, fails: an empty chunk does not keep a held partial. *)
Lemma empty_chunk_drops_partial :
  processRawChunkString (T := Json.value) EmptyString (Some "{")
  <> ([], Some "{").
Proof. vm_compute. discriminate. Qed.

(** C6 (amended): for every held partial, an empty chunk yields no event and
    a null partial. *)
Theorem empty_chunk_clears_partial {T : Type} `{Parser T}
    (p : option string) :
  processRawChunkString EmptyString p = ([], None).
Proof. reflexivity. Qed.

(** ** C7: conservation of the input *)

(** C7, as stated, fails: the SSE decoder drops a data line that does not
    parse, the newline-JSON decoder drops the held partial on an empty chunk
    and drops a line that parses to a falsy value; each time no event is
    emitted and the buffer is empty. *)
Lemma bytes_dropped :
  sseRead (T := Json.value) EmptyString (text "data: {a:1~")
  = ([], EmptyString)
  /\ processRawChunkString (T := Json.value) EmptyString (Some "{")
     = ([], None)
  /\ processRawChunkString (T := Json.value) (text "0~") None = ([], None).
Proof. vm_compute. repeat split. Qed.

(** C7 (amended): in the newline-JSON decoder, for every sequence of chunks
    none of which is empty, the characters of the input other than the
    newlines, in their order and after the initial partial, are exactly the
    texts of the units that parsed followed by the final partial; the events
    are the truthy values of these units, in order. *)
Theorem byte_conservation {T : Type} `{Parser T} (chunks : list string)
    (p : option string) :
  Forall (fun c => JS.isEmpty c = false) chunks ->
  exists units : list string,
    Forall (fun u => jsonParse (T := T) u <> None) units
    /\ fst (decodeChunks p chunks) = flat_map eventOf units
    /\ joinChunks units +:+ JS.orEmpty (snd (decodeChunks p chunks))
       = JS.orEmpty p +:+ JS.removeNewlines (joinChunks chunks).
Proof. apply ChunkFacts.decodeChunks_units. Qed.

Lemma byte_conservation_witness :
  Forall (fun c => JS.isEmpty c = false) [text "{'a'"; text ":1}~{'b'"]
  /\ exists units : list string,
       Forall (fun u => jsonParse (T := Json.value) u <> None) units
       /\ fst (decodeChunks None [text "{'a'"; text ":1}~{'b'"])
          = flat_map eventOf units
       /\ joinChunks units
          +:+ JS.orEmpty (snd (decodeChunks (T := Json.value) None
                                 [text "{'a'"; text ":1}~{'b'"]))
          = JS.orEmpty None
            +:+ JS.removeNewlines (joinChunks [text "{'a'"; text ":1}~{'b'"]).
Proof.
  split; [repeat constructor|].
  apply (byte_conservation (T := Json.value)). repeat constructor.
Defined.

(** ** C3: decode failures *)

Lemma garbage_never_parses (t : string) : Json.parse ("garbage" +:+ t) = None.
Proof.
  unfold Json.parse. rewrite Nat.add_comm. reflexivity.
Qed.

(** C3, as stated, fails for the newline-JSON decoder: a line that never
    becomes valid JSON is kept as the partial and prepended to the next
    line, so the well-formed line after it is not emitted. *)
Lemma malformed_line_poisons_stream :
  (forall t, Json.parse ("garbage" +:+ t) = None)
  /\ Json.parse (text "{'a':1}")
     = Some (Json.Obj [(Json.units "a", Json.Number false 1 0)])
  /\ processRawChunkString (T := Json.value) (text "garbage~{'a':1}~") None
     = ([], Some (text "garbage{'a':1}")).
Proof.
  split; [exact garbage_never_parses|]. vm_compute. split; reflexivity.
Qed.

(** C3 (amended): no decoder ends with an exception on chunks that are all
    delivered, whatever fails to parse in them; and in the SSE decoder every
    line is decoded on its own, so that after any text, malformed or not,
    each later well-formed data line is emitted, in order, however the text
    is cut into chunks. *)
Theorem decode_failures_contained {T : Type} `{Parser T}
    (chunks : list string) (before : string) (payloads : list string)
    (values : list T) :
  joinChunks chunks
  = before +:+ String JS.newline (dataLines payloads) ->
  Forall2 (fun payload v =>
             JS.hasNewline payload = false /\ jsonParse payload = Some v)
    payloads values ->
  snd (handleStream (T := T) (reads chunks)) = Finished
  /\ handleSSEStream (reads chunks)
     = (flat_map sseLine (JS.split JS.newline before) ++ values, Finished).
Proof.
  intros Htext Hlines. split.
  - apply SseFacts.handleStreamFrom_finishes.
  - rewrite SseFacts.handleSSEStream_lines, Htext.
    rewrite SseFacts.split_after_newline, flat_map_app.
    now rewrite (SseFacts.dataLines_events payloads values Hlines).
Qed.

Lemma decode_failures_contained_witness :
  handleSSEStream (T := Json.value)
    (reads [text "data: {a:1~da"; text "ta: {'a':1}~data: {'b':2}~"])
  = ([Json.Obj [(Json.units "a", Json.Number false 1 0)];
      Json.Obj [(Json.units "b", Json.Number false 2 0)]], Finished).
Proof.
  apply (proj2 (decode_failures_contained (T := Json.value)
    [text "data: {a:1~da"; text "ta: {'a':1}~data: {'b':2}~"]
    (text "data: {a:1")
    [text "{'a':1}"; text "{'b':2}"]
    [Json.Obj [(Json.units "a", Json.Number false 1 0)];
     Json.Obj [(Json.units "b", Json.Number false 2 0)]]
    eq_refl
    ltac:(repeat constructor))).
Defined.

(** ** C8: the recovery of the SSE decoder *)

(** C8: the sample line yields the two objects in their order; and for
    every payload that does not parse, the events are the parsed ones among
    texts that occur in the payload from left to right, in that order. *)
Theorem sse_recovery_order :
  handleSSEStream (T := Json.value)
    [Chunk (text "data: garbage {'a':1} more-garbage {'b':2}~")]
  = ([Json.Obj [(Json.units "a", Json.Number false 1 0)];
      Json.Obj [(Json.units "b", Json.Number false 2 0)]], Finished)
  /\ forall payload : string,
       exists hits : list string,
         JS.occursInOrder hits payload
         /\ sseData (T := Json.value) payload
            = match Json.parse payload with
              | Some data => [data]
              | None => parseEach hits
              end.
Proof.
  split; [vm_compute; reflexivity|].
  intros payload. exact (SseFacts.sseData_in_order (T := Json.value) payload).
Qed.

(** ** C10: the citation filter *)

(** C10, as stated, fails: removing one citation can bring the two halves of
    another one together. *)
Lemma filter_not_idempotent :
  Citations.filterCitationsForTyping
    (Citations.filterCitationsForTyping "[[1]][[2]](x)(y)")
  <> Citations.filterCitationsForTyping "[[1]][[2]](x)(y)".
Proof. vm_compute. discriminate. Qed.

(** C10 (amended): the filter never lengthens a text, changes it only by
    shortening it, and reaches a text it leaves unchanged after at most as
    many applications as the text has characters. *)
Theorem filter_reaches_fixed_point (s : string) :
  String.length (Citations.filterCitationsForTyping s) <= String.length s
  /\ (Citations.filterCitationsForTyping s = s
      \/ String.length (Citations.filterCitationsForTyping s)
         < String.length s)
  /\ Citations.filterCitationsForTyping
       (Nat.iter (String.length s) Citations.filterCitationsForTyping s)
     = Nat.iter (String.length s) Citations.filterCitationsForTyping s.
Proof.
  split; [apply CitationFacts.filter_length|].
  split; [apply CitationFacts.filter_shrinks|].
  now apply CitationFacts.filter_stabilises.
Qed.

(** ** C2: completion of the typewriter *)




(** ** C4: the interrupt flag *)

(** C4, as stated, fails in its last part: after an unmount in the middle
    of typing and a new mount with the completed message, the hook is
    complete and shows the content, and the flag is still stored. *)
Lemma interrupt_flag_survives_completion :
  let storage :=
    sessionStorage (run (mount ∅ (message "Hello" false)) [Tick 1; Unmount]) in
  storage !! flagKey = Some "1"
  /\ isTypingComplete (hookOf (mount storage (message "Hello" true))) = true
  /\ displayed (mount storage (message "Hello" true)) = "Hello"
  /\ sessionStorage (mount storage (message "Hello" true)) !! flagKey
     = Some "1".
Proof. vm_compute. repeat split. Qed.

(** C4 (amended): when a component with ids unmounts before typing is
    complete, the flag is stored under its key; the next mount under the
    same key shows the full content at once, schedules no timer, and is
    complete when the props say so; the flag is still stored after that
    mount, and it is removed by the unmount of a component whose typing is
    complete. *)
Theorem interrupt_persistence (w : World) (m : Mounted) (key : string)
    (p : Props) :
  component w = Some m ->
  Consistent m ->
  storageKey (props m) = Some key ->
  storageKey p = Some key ->
  isTypingComplete (hook m) = false ->
  let storage := sessionStorage (step w Unmount) in
  storage !! key = Some "1"
  /\ displayed (mount storage p) = content p
  /\ timers (hookOf (mount storage p)) = []
  /\ isTypingComplete (hookOf (mount storage p))
     = (isComplete p || shared p)%bool
  /\ sessionStorage (mount storage p) !! key = Some "1"
  /\ sessionStorage (step (mount storage p) Unmount) !! key
     = if (isComplete p || shared p)%bool then None else Some "1".
Proof.
  intros Hm Hc Hkey Hkeyp Htyping storage.
  assert (Hflag : storage !! key = Some "1").
  { unfold storage. rewrite (CompletionFacts.unmount_flag w m key Hm Hc Hkey).
    now rewrite Htyping. }
  destruct (CompletionFacts.mount_disabled storage p key Hkeyp Hflag)
    as (Hd & Ht & _ & Hdone & Hstill).
  split; [exact Hflag|]. split; [exact Hd|]. split; [exact Ht|].
  split; [exact Hdone|]. split; [exact Hstill|].
  destruct (CompletionFacts.mount_consistent storage p) as (m' & Hm' & Hc' & Hp').
  rewrite (CompletionFacts.unmount_flag _ m' key Hm' Hc')
    by (now rewrite Hp').
  unfold hookOf in Hdone. rewrite Hm' in Hdone. now rewrite Hdone.
Qed.

Lemma interrupt_persistence_witness :
  let w := run (mount ∅ (message "Hello" false)) [Tick 1] in
  let storage := sessionStorage (step w Unmount) in
  isTypingComplete (hookOf w) = false
  /\ storage !! flagKey = Some "1"
  /\ displayed (mount storage (message "Hello" true)) = "Hello"
  /\ timers (hookOf (mount storage (message "Hello" true))) = []
  /\ isTypingComplete (hookOf (mount storage (message "Hello" true))) = true
  /\ sessionStorage (mount storage (message "Hello" true)) !! flagKey
     = Some "1"
  /\ sessionStorage (step (mount storage (message "Hello" true)) Unmount)
       !! flagKey = None.
Proof.
  cbv zeta. split; [vm_compute; reflexivity|].
  pose (w := run (mount ∅ (message "Hello" false)) [Tick 1]).
  pose (m := {| hook := hookOf w; props := message "Hello" false;
                cleanupClosure := renderOf (message "Hello" false) initialHook;
                handlerClosure := renderOf (message "Hello" false) initialHook
             |}).
  apply (interrupt_persistence w m flagKey (message "Hello" true)).
  - vm_compute. reflexivity.
  - vm_compute. repeat split.
  - vm_compute. reflexivity.
  - vm_compute. reflexivity.
  - vm_compute. reflexivity.
Defined.

(** ** C5: the reveal index *)



(** The update from He to Hello of the specification: typing goes on from
    the index reached. *)
Example he_then_hello :
  revealIndex (run (mount ∅ (message "He" false)) [Tick 1]) = 2
  /\ revealIndex (run (mount ∅ (message "He" false))
                    [Tick 1; Update (message "Hello" false)]) = 3
  /\ displayed (run (mount ∅ (message "He" false))
                  [Tick 1; Update (message "Hello" false)]) = "Hel".
Proof. vm_compute. repeat split. Qed.

(** ** C9: the return of the tab *)

(** C9 fails on the code: [startTyping] sets [isTypingRef] before it calls
    [continueTyping], which then returns at once.  With the content He
    extended to Hello during typing, the reveal index is 2 of 5 and no timer
    is pending when the tab returns; afterwards still no timer is pending,
    the reveal index is back at 1, the length of the text the handler saw
    displayed, and [isTypingRef] stays set.  With a content that ends in a
    citation the index goes back to 0.  The handler never schedules a
    timer. *)
Theorem visibility_restore_stalls :
  let w := run (mount ∅ (message "He" false))
             [Update (message "Hello" false); Tick 1] in
  let w' := step w (VisibilityChange Visible) in
  let c := mount ∅ (message "a[[1]](https://x)" false) in
  let c' := step c (VisibilityChange Visible) in
  (revealIndex w = 2 /\ timers (hookOf w) = [] /\ displayed w = "He")
  /\ (revealIndex w' = 1 /\ timers (hookOf w') = [] /\ displayed w' = "He"
      /\ isTypingRef (hookOf w') = true)
  /\ (revealIndex c = 1 /\ timers (hookOf c) = [])
  /\ (revealIndex c' = 0 /\ timers (hookOf c') = [])
  /\ forall r v h,
       nextTimer (handleVisibilityChange r v h) = nextTimer h.
Proof.
  cbv zeta. split; [vm_compute; repeat split|].
  split; [vm_compute; repeat split|].
  split; [vm_compute; repeat split|].
  split; [vm_compute; repeat split|].
  exact CompletionFacts.visibility_never_schedules.
Qed.


(** * Further properties *)

(** ** The newline-JSON decoder and its consumer *)

Module ConsumerFacts.
Import Stream Consumer StringFacts ChunkFacts.

Section WithParser.
Context {T : Type} `{Parser T}.

Abbreviation decodeSections := (fold_left (processSection (T := T))).




Lemma sections_not_empty (s : string) :
  Forall (fun c => c <> EmptyString) (chunkSections s).
Proof.
  unfold chunkSections. apply List.Forall_forall. intros c Hin.
  apply List.filter_In in Hin as [_ Hlen].
  destruct c; [discriminate | discriminate].
Qed.

Lemma processSection_partial (acc : list T * option string) (c : string) :
  c <> EmptyString ->
  snd (processSection acc c) <> Some EmptyString.
Proof.
  destruct acc as [events p]. unfold processSection, processSingleChunk.
  intros Hc.
  destruct (jsonParse (JS.orEmpty p +:+ c)) as [v|].
  - destruct (isTruthy v); cbn; discriminate.
  - cbn. intros Heq. injection Heq as Heq.
    destruct (JS.orEmpty p); [cbn in Heq; contradiction | discriminate].
Qed.

Lemma decodeSections_partial (l : list string) (acc : list T * option string) :
  Forall (fun c => c <> EmptyString) l ->
  snd acc <> Some EmptyString ->
  snd (decodeSections l acc) <> Some EmptyString.
Proof.
  revert acc. induction l as [|c l IH]; intros acc Hl Hacc; [exact Hacc|].
  inversion Hl as [|? ? Hc Hl']; subst. cbn [fold_left].
  apply IH; [exact Hl' | now apply processSection_partial].
Qed.

Lemma processRawChunkString_partial (c : string) (p : option string) :
  p <> Some EmptyString ->
  snd (processRawChunkString (T := T) c p) <> Some EmptyString.
Proof.
  intros Hp. unfold processRawChunkString.
  destruct (JS.isEmpty c); [discriminate|].
  apply decodeSections_partial; [apply sections_not_empty | exact Hp].
Qed.

Lemma sections_of_lines (lines : list string) :
  Forall (fun l => JS.hasNewline l = false /\ l <> EmptyString) lines ->
  chunkSections (completeLines lines) = lines.
Proof.
  unfold completeLines, chunkSections.
  induction 1 as [|l lines [Hnl Hne] _ IH]; [reflexivity|].
  cbn [List.map joinChunks fold_right].
  fold (joinChunks (List.map (fun l => l +:+ String JS.newline EmptyString) lines)).
  rewrite sapp_assoc. cbn [String.append].
  rewrite SseFacts.split_after_newline, List.filter_app, IH.
  rewrite (SseFacts.split_no_newline _ Hnl).
  destruct l; [contradiction | reflexivity].
Qed.

Lemma decodeSections_lines (lines : list string) (values events : list T) :
  Forall2 (fun l v => jsonParse l = Some v /\ isTruthy v = true) lines values ->
  decodeSections lines (events, None) = (events ++ values, None).
Proof.
  intros Hall. revert events.
  induction Hall as [|l v lines values [Hparse Hv] _ IH]; intros events.
  - now rewrite app_nil_r.
  - cbn [fold_left]. unfold processSection at 2, processSingleChunk.
    cbn [JS.orEmpty String.append]. rewrite Hparse, Hv, IH.
    now rewrite <- List.app_assoc.
Qed.

Lemma sections_of_newlines (c : string) :
  JS.removeNewlines c = EmptyString -> chunkSections c = [].
Proof.
  intros Hc. pose proof (joinChunks_sections c) as Hjoin.
  pose proof (sections_not_empty c) as Hne. rewrite Hc in Hjoin.
  destruct (chunkSections c) as [|s l]; [reflexivity|].
  inversion Hne as [|? ? Hs _]; subst.
  cbn in Hjoin. destruct s; [contradiction | discriminate].
Qed.

Lemma handleStreamFrom_dead (pre : list string) (rest : list Read)
    (p : option string) :
  handleStreamFrom (T := T) p (reads pre ++ Chunk EmptyString :: rest)
  = handleStreamFrom p (reads pre).
Proof.
  revert p. induction pre as [|c pre IH]; intros p; [reflexivity|].
  cbn [reads List.map app handleStreamFrom]. fold (reads pre).
  destruct (processRawChunkString c p) as [completed partial].
  destruct (_ && _)%bool; [reflexivity|]. now rewrite IH.
Qed.

Lemma handleStreamFrom_live (chunks : list string) (rest : list Read)
    (p : option string) :
  liveReads p chunks = true ->
  exists batches : list (list T),
    List.length batches = List.length chunks
    /\ List.concat batches = fst (decodeChunks p chunks)
    /\ handleStreamFrom p (reads chunks ++ rest)
       = (batches ++ fst (handleStreamFrom (snd (decodeChunks p chunks)) rest),
          snd (handleStreamFrom (snd (decodeChunks p chunks)) rest)).
Proof.
  revert p. induction chunks as [|c chunks IH]; intros p Hlive.
  - exists []. cbn. repeat split.
    now destruct (handleStreamFrom p rest).
  - cbn [liveReads] in Hlive. apply andb_true_iff in Hlive as [Hc Hlive].
    unfold liveRead in Hc.
    cbn [reads List.map app handleStreamFrom decodeChunks]. fold (reads chunks).
    destruct (processRawChunkString c p) as [completed partial].
    cbn [snd] in Hlive. apply negb_true_iff in Hc. rewrite Hc.
    destruct (IH partial Hlive) as (batches & Hlen & Hcat & Hrun).
    rewrite Hrun.
    destruct (decodeChunks partial chunks) as [later final]. cbn [fst snd] in *.
    exists (completed :: batches). cbn [List.length List.concat app].
    rewrite Hlen, Hcat. repeat split.
Qed.

End WithParser.
End ConsumerFacts.

(** ** The SSE decoder *)

Module RecoveryFacts.
Import Stream Consumer Regex StringFacts RegexFacts.

(** What a starred character class consumes lies in the class. *)
Lemma rmatch_star_class {R : Type} (total : nat) (f : ascii -> bool)
    (allIn : string -> bool) :
  allIn EmptyString = true ->
  (forall c s, allIn (String c s) = (f c && allIn s)%bool) ->
  forall (s : string) (k : string -> option R) (x : R),
    rmatch total (Star (Cls f)) s k = Some x ->
    exists body rest, s = body +:+ rest /\ allIn body = true /\ k rest = Some x.
Proof.
  intros Hnil Hcons s k x. cbn [rmatch].
  generalize (String.length s) at 1. intros fuel. revert s.
  induction fuel as [|fuel IH]; intros s Hm.
  - exists EmptyString, s. auto.
  - destruct s as [|c s].
    + exists EmptyString, EmptyString. auto.
    + destruct (f c) eqn:Hc.
      * destruct (String.length s <? String.length (String c s)) eqn:Hlt.
        -- destruct ((fix loop (fuel0 : nat) (s0 : string) {struct fuel0} :=
                        match fuel0 with
                        | 0 => k s0
                        | S fuel' =>
                            match
                              match s0 with
                              | EmptyString => None
                              | String c0 s' =>
                                  if f c0
                                  then if String.length s' <? String.length s0
                                       then loop fuel' s' else None
                                  else None
                              end
                            with
                            | Some x0 => Some x0
                            | None => k s0
                            end
                        end) fuel s) as [y|] eqn:Hloop.
           ++ injection Hm as ->.
              apply IH in Hloop as (body & rest & -> & Hbody & Hk).
              exists (String c body), rest. rewrite Hcons, Hc, Hbody. auto.
           ++ exists EmptyString, (String c s). auto.
        -- exists EmptyString, (String c s). auto.
      * exists EmptyString, (String c s). auto.
Qed.

Lemma noBraces_cons (c : ascii) (s : string) :
  noBraces (String c s) = (notBrace c && noBraces s)%bool.
Proof. reflexivity. Qed.

Lemma rmatch_seq {R : Type} (total : nat) (r1 r2 : regex) (s : string)
    (k : string -> option R) :
  rmatch total (Seq r1 r2) s k
  = rmatch total r1 s (fun s1 => rmatch total r2 s1 k).
Proof. reflexivity. Qed.

Lemma rmatch_chr {R : Type} (total : nat) (c : ascii) (s : string)
    (k : string -> option R) (x : R) :
  rmatch total (Chr c) s k = Some x ->
  exists rest, s = String c rest /\ k rest = Some x.
Proof.
  cbn [rmatch Chr]. destruct s as [|c' s]; [discriminate|].
  destruct (Ascii.eqb c c') eqn:Hc; [|discriminate].
  apply Ascii.eqb_eq in Hc as <-. intros Hk. now exists s.
Qed.

(** A match of the fallback pattern is a flat object. *)
Lemma braceObject_match (total : nat) (s rest : string) :
  rmatch total braceObject s Some = Some rest ->
  exists body, s = String "{" (body +:+ String "}" rest)
               /\ noBraces body = true.
Proof.
  unfold braceObject. cbn [Cat]. rewrite rmatch_seq. intros Hm.
  apply rmatch_chr in Hm as (s1 & -> & Hm). rewrite rmatch_seq in Hm.
  apply (rmatch_star_class total _ noBraces eq_refl noBraces_cons) in Hm
    as (body & s2 & -> & Hbody & Hm).
  apply rmatch_chr in Hm as (rest' & -> & Hk). injection Hk as ->.
  now exists body.
Qed.

Section Hits.
Variable m : string -> option string.
Variable P : string -> Prop.
Hypothesis m_hit : forall s rest,
  m s = Some rest -> P (JS.take (String.length s - String.length rest) s).

Lemma matchLoop_all (fuel : nat) (s : string) : Forall P (matchLoop m fuel s).
Proof.
  revert s. induction fuel as [|fuel IH]; intros s; cbn [matchLoop];
    [constructor|].
  destruct (m s) as [rest|] eqn:Hm.
  - pose proof (m_hit _ _ Hm) as Hhit.
    destruct (String.length rest <? String.length s).
    + constructor; [exact Hhit | apply IH].
    + destruct s as [|c s]; constructor; try exact Hhit;
        try constructor; apply IH.
  - destruct s as [|c s]; [constructor | apply IH].
Qed.

End Hits.

Lemma matchAll_flat (payload : string) (hits : list string) :
  matchAll braceObject payload = Some hits -> Forall flatObject hits.
Proof.
  unfold matchAll. intros Hm.
  assert (Hall : Forall flatObject
            (matchLoop (fun t => rmatch (String.length payload) braceObject t Some)
               (S (String.length payload)) payload)).
  { apply matchLoop_all. intros s rest Hs.
    apply braceObject_match in Hs as (body & -> & Hbody).
    exists body. split; [|exact Hbody].
    change (String "{" (body +:+ String "}" rest))
      with (String "{" body +:+ String "}" rest).
    replace (String "{" body +:+ String "}" rest)
      with ((String "{" body +:+ "}") +:+ rest)
      by (now rewrite sapp_assoc).
    rewrite take_app. reflexivity. }
  destruct (matchLoop _ _ payload); [discriminate|].
  now injection Hm as <-.
Qed.

End RecoveryFacts.

Module SseMore.
Import Stream Consumer StringFacts SseFacts.

Section WithParser.
Context {T : Type} `{Parser T}.

Lemma joinChunks_snoc (chunks : list string) (c : string) :
  joinChunks (chunks ++ [c]) = joinChunks chunks +:+ c.
Proof.
  rewrite ChunkFacts.joinChunks_app. cbn. now rewrite sapp_nil_r.
Qed.

Lemma sse_trailing_newline (chunks : list string) :
  handleSSEStream (T := T) (reads (chunks ++ [String JS.newline EmptyString]))
  = handleSSEStream (reads chunks).
Proof.
  rewrite !handleSSEStream_lines, joinChunks_snoc, split_after_newline.
  rewrite flat_map_app. cbn. now rewrite app_nil_r.
Qed.

Lemma last_app_cons (A : Type) (xs ys : list A) (d : A) :
  ys <> [] -> List.last (xs ++ ys) d = List.last ys d.
Proof.
  intros Hys. induction xs as [|x xs IH]; [reflexivity|].
  cbn [app List.last]. destruct (xs ++ ys) eqn:E; [|exact IH].
  apply app_eq_nil in E as [_ E]. contradiction.
Qed.

(** A read that delivers nothing: the events of the complete lines so far,
    the buffer being left as it is. *)
Lemma sseLoop_absent (chunks : list string) (rest : list Read)
    (buffer : string) :
  JS.hasNewline buffer = false ->
  sseLoop (T := T) buffer (reads chunks ++ Absent :: rest)
  = (flat_map sseLine
       (removelast (JS.split JS.newline (buffer +:+ joinChunks chunks))),
     List.last (JS.split JS.newline (buffer +:+ joinChunks chunks)) EmptyString,
     Threw "Unable to process chunk").
Proof.
  revert buffer. induction chunks as [|c chunks IH]; intros buffer Hbuf.
  - cbn. now rewrite sapp_nil_r, (split_no_newline _ Hbuf).
  - cbn [reads List.map app sseLoop joinChunks fold_right].
    fold (reads chunks). fold (joinChunks chunks). unfold sseRead.
    rewrite (IH _ (last_split_no_newline (buffer +:+ c))).
    rewrite <- sapp_assoc.
    rewrite (split_buffer (buffer +:+ c) (joinChunks chunks)).
    rewrite removelast_app by apply split_not_nil.
    rewrite last_app_cons by apply split_not_nil.
    now rewrite flat_map_app.
Qed.

End WithParser.
End SseMore.

(** ** The citation filter on plain text *)

Module PlainFacts.
Import Regex Citations Plain StringFacts RegexFacts.

Lemma hasParen_app (a b : string) :
  hasParen (a +:+ b) = (hasParen a || hasParen b)%bool.
Proof.
  induction a as [|c a IH]; cbn; [reflexivity|].
  now rewrite IH, orb_assoc.
Qed.

Lemma needsParen_chr : needsParen (Chr "(").
Proof.
  intros R total t k x Hm. cbn [rmatch Chr] in Hm.
  destruct t as [|c t]; [discriminate|].
  destruct (Ascii.eqb "(" c) eqn:Hc; [|discriminate].
  apply Ascii.eqb_eq in Hc as <-. reflexivity.
Qed.

Lemma needsParen_seq_l (r1 r2 : regex) : needsParen r1 -> needsParen (Seq r1 r2).
Proof. intros H1 R total t k x Hm. cbn [rmatch] in Hm. now apply H1 in Hm. Qed.

Lemma needsParen_seq_r (r1 r2 : regex) : needsParen r2 -> needsParen (Seq r1 r2).
Proof.
  intros H2 R total t k x Hm. cbn [rmatch] in Hm.
  apply rmatch_suffix in Hm as (pre & s1 & -> & Hm).
  apply H2 in Hm. rewrite hasParen_app, Hm. apply orb_true_r.
Qed.

Lemma needsParen_urlPart : needsParen urlPart.
Proof. apply needsParen_seq_l, needsParen_chr. Qed.

Lemma needsParen_doubleBracket : needsParen doubleBracketCitation.
Proof. do 5 apply needsParen_seq_r. apply needsParen_urlPart. Qed.

Lemma needsParen_numeric : needsParen numericCitation.
Proof. do 4 apply needsParen_seq_r. apply needsParen_urlPart. Qed.

Lemma needsParen_orphanUrl : needsParen orphanUrl.
Proof. apply needsParen_seq_l, needsParen_chr. Qed.

Section Untouched.
Variable m : string -> option (string * string).
Hypothesis m_needs : forall t, hasParen t = false -> m t = None.

Lemma replaceLoop_plain (fuel : nat) (s : string) :
  hasParen s = false -> replaceLoop m fuel s = s.
Proof.
  revert s. induction fuel as [|fuel IH]; intros s Hs; [reflexivity|].
  cbn [replaceLoop]. rewrite (m_needs s Hs).
  destruct s as [|c s]; [reflexivity|].
  cbn in Hs. apply orb_false_iff in Hs as [_ Hs]. now rewrite IH.
Qed.

End Untouched.

Lemma erase_plain (r : regex) (total : nat) (t : string) :
  needsParen r -> hasParen t = false -> erase r total t = None.
Proof.
  intros Hr Ht. unfold erase.
  destruct (rmatch total r t _) as [x|] eqn:Hm; [|reflexivity].
  apply Hr in Hm. congruence.
Qed.

Lemma keepGroup1_plain (g body : regex) (total : nat) (t : string) :
  needsParen body -> hasParen t = false -> keepGroup1 g body total t = None.
Proof.
  intros Hr Ht. unfold keepGroup1.
  destruct (rmatch total g t _) as [x|] eqn:Hm; [|reflexivity].
  apply rmatch_suffix in Hm as (pre & s1 & -> & Hm).
  apply Hr in Hm. rewrite hasParen_app, Hm, orb_true_r in Ht. discriminate.
Qed.

Lemma filter_plain (s : string) :
  hasParen s = false -> filterCitationsForTyping s = s.
Proof.
  intros Hs. unfold filterCitationsForTyping, replaceAll.
  rewrite (replaceLoop_plain (erase doubleBracketCitation (String.length s)))
    by (try exact Hs; intros t Ht; now apply erase_plain;
        try apply needsParen_doubleBracket).
  rewrite (replaceLoop_plain (erase numericCitation (String.length s)))
    by (try exact Hs; intros t Ht; now apply erase_plain;
        try apply needsParen_numeric).
  apply replaceLoop_plain; [|exact Hs].
  intros t Ht. apply keepGroup1_plain; [apply needsParen_orphanUrl | exact Ht].
Qed.

End PlainFacts.

(** ** The typewriter: keys, unmount, reset, mirroring *)

Module SessionFacts.
Import Typewriter Session StringFacts TypewriterFacts CompletionFacts.

#[local] Arguments Citations.filterCitationsForTyping : simpl never.








Lemma unmount_frame (w : World) (m : Mounted) (key : string) :
  component w = Some m ->
  Consistent m ->
  storageKey (props m) <> Some key ->
  sessionStorage (step w Unmount) !! key = sessionStorage w !! key.
Proof.
  intros Hm (Hs & Hi & _) Hkey. unfold step. rewrite Hm.
  cbn [sessionStorage]. unfold unmountCleanup.
  assert (Hsame : storageKey (rProps (cleanupClosure m)) = storageKey (props m))
    by (unfold storageKey; now rewrite Hs, Hi).
  rewrite Hsame.
  destruct (storageKey (props m)) as [key'|]; [|reflexivity].
  assert (key' <> key) by congruence.
  destruct (negb _); [now apply lookup_insert_ne | now apply lookup_delete_ne].
Qed.

End SessionFacts.

(** ** The typewriter: completion and the mirroring mode *)

Module ModeFacts.
Import Typewriter Session StringFacts TypewriterFacts CompletionFacts.

#[local] Arguments Citations.filterCitationsForTyping : simpl never.

(** [startTyping] only sets refs. *)
Lemma startTyping_idle (r : Render) (text : string) (i : nat) (h : Hook) :
  timers (startTyping r text i h) = timers h
  /\ nextTimer (startTyping r text i h) = nextTimer h
  /\ timeoutRef (startTyping r text i h) = timeoutRef h
  /\ displayedContent (startTyping r text i h) = displayedContent h
  /\ isTypingComplete (startTyping r text i h) = isTypingComplete h
  /\ typingDisabledRef (startTyping r text i h) = typingDisabledRef h
  /\ lastContentRef (startTyping r text i h) = lastContentRef h.
Proof.
  unfold startTyping, continueTyping.
  destruct (isTypingRef h); cbn; repeat split.
Qed.

(** The content effect on a content that does not extend the last one. *)
Lemma contentEffect_reset (r : Render) (h : Hook) :
  typingDisabledRef h = false ->
  content (rProps r) <> lastContentRef h ->
  JS.startsWith (content (rProps r)) (lastContentRef h) = false ->
  let h' := contentEffect r h in
  displayedContent h' = EmptyString
  /\ currentTypingIndexRef h' = 0
  /\ isTypingComplete h' = false
  /\ lastContentRef h' = content (rProps r)
  /\ timers h' = timers h
  /\ nextTimer h' = nextTimer h
  /\ isTypingRef h' = negb (JS.isEmpty (content (rProps r))).
Proof.
  intros Hdis Hne Hext. unfold contentEffect. rewrite Hdis, Hext.
  apply String.eqb_neq in Hne. rewrite Hne. cbn [negb andb].
  unfold startTyping, continueTyping.
  destruct (content (rProps r)) as [|c s]; cbn; repeat split.
Qed.

(** Typing alone never marks the message complete. *)
Lemma typeNextChar_complete (cl : Closure) (h : Hook) :
  isTypingComplete (typeNextChar cl h) = isTypingComplete h.
Proof.
  unfold typeNextChar.
  destruct (_ && _ && _)%bool; [destruct (_ <? _)|]; reflexivity.
Qed.

Lemma tick_complete (tid : nat) (h : Hook) :
  isTypingComplete (tick tid h) = isTypingComplete h.
Proof.
  unfold tick. destruct (findTimer tid (timers h)); [|reflexivity].
  now rewrite typeNextChar_complete.
Qed.

Lemma contentEffect_quiet (r : Render) (h : Hook) :
  isComplete (rProps r) = false ->
  isTypingComplete h = false ->
  isTypingComplete (contentEffect r h) = false.
Proof.
  intros Hq Hh. unfold contentEffect, startTyping, continueTyping.
  rewrite Hq.
  repeat match goal with
         | |- context [if ?b then _ else _] => destruct b
         end; cbn; rewrite ?typeNextChar_complete; cbn; auto.
Qed.

Lemma mountEffect_quiet (storage : gmap string string) (r : Render) :
  isComplete (rProps r) = false ->
  isTypingComplete (mountEffect storage r initialHook) = false.
Proof.
  intros Hq. unfold mountEffect. rewrite Hq.
  destruct (storageKey (rProps r)); [destruct (bool_decide _)|]; reflexivity.
Qed.

Lemma completionEffect_quiet (r : Render) (h : Hook) :
  (isComplete (rProps r) || shared (rProps r))%bool = false ->
  completionEffect r h = h.
Proof. intros Hq. unfold completionEffect. now rewrite Hq. Qed.

Lemma handleVisible_complete (r : Render) (h : Hook) :
  isTypingComplete (handleVisibilityChange r Visible h) = isTypingComplete h.
Proof.
  unfold handleVisibilityChange.
  destruct (_ && _ && _)%bool; [|reflexivity].
  destruct (0 <? _).
  - destruct (startTyping_idle r (content (rProps r))
                (String.length (rDisplayed r))
                (setIsTypingRef false (clearPendingTimeout h)))
      as (_ & _ & _ & _ & Hc & _).
    rewrite Hc. unfold clearPendingTimeout. now destruct (timeoutRef h).
  - unfold clearPendingTimeout. now destruct (timeoutRef h).
Qed.

Lemma hookOf_rerender (storage : gmap string string) (m : Mounted) :
  hookOf (rerender storage m) = hook m.
Proof. reflexivity. Qed.

Lemma step_quiet (w : World) (e : Event) :
  quietEvent e = true ->
  isTypingComplete (hookOf w) = false ->
  isTypingComplete (hookOf (step w e)) = false.
Proof.
  intros He Hw. unfold step, hookOf in *.
  destruct (component w) as [m|] eqn:Hm; [|now rewrite Hm].
  destruct e as [p|tid|[|]|]; try discriminate; cbn [quietEvent] in He.
  - apply negb_true_iff in He. unfold update.
    cbn [rerender component hook].
    assert (Hic : isComplete p = false)
      by (destruct (isComplete p); [discriminate | reflexivity]).
    destruct (completionDepsChanged (props m) p);
      rewrite ?(completionEffect_quiet (renderOf p (hook m))) by exact He;
      (destruct (contentDepsChanged (props m) p);
       [now apply contentEffect_quiet | exact Hw]).
  - cbn [rerender component hook withHook]. now rewrite tick_complete.
  - cbn [rerender component hook withHook].
    now rewrite handleVisible_complete.
Qed.

Lemma run_quiet (es : list Event) (w : World) :
  forallb quietEvent es = true ->
  isTypingComplete (hookOf w) = false ->
  isTypingComplete (hookOf (run w es)) = false.
Proof.
  revert w. induction es as [|e es IH]; intros w Hes Hw; [exact Hw|].
  cbn [forallb] in Hes. apply andb_true_iff in Hes as [He Hes].
  cbn [run fold_left]. fold (run (step w e) es).
  apply IH; [exact Hes | now apply step_quiet].
Qed.

Lemma mount_quiet (storage : gmap string string) (p : Props) :
  (isComplete p || shared p)%bool = false ->
  isTypingComplete (hookOf (mount storage p)) = false.
Proof.
  intros Hq. unfold mount. rewrite hookOf_rerender.
  rewrite (completionEffect_quiet (renderOf p initialHook)) by exact Hq.
  apply orb_false_iff in Hq as [Hic _].
  apply contentEffect_quiet; [exact Hic | now apply mountEffect_quiet].
Qed.

(** *** The mirroring mode *)

Lemma handlerDeps_content (old : Render) (p : Props) (h : Hook) :
  handlerDepsChanged old (renderOf p h) = false ->
  content (rProps old) = content p.
Proof.
  unfold handlerDepsChanged. intros Hsame.
  apply negb_false_iff, andb_true_iff in Hsame as [Hc _].
  now apply String.eqb_eq in Hc.
Qed.

Lemma rerender_mirroring (storage : gmap string string) (m : Mounted) :
  typingDisabledRef (hook m) = true ->
  timers (hook m) = [] ->
  displayedContent (hook m) = content (props m) ->
  exists m', component (rerender storage m) = Some m' /\ Mirroring m'
             /\ props m' = props m.
Proof.
  intros Hd Ht Hs. eexists. split; [reflexivity|]. split; [|reflexivity].
  unfold Mirroring. cbn [hook props handlerClosure].
  repeat split; try assumption.
  destruct (handlerDepsChanged _ _) eqn:E; [reflexivity|].
  now apply handlerDeps_content in E.
Qed.

Lemma contentEffect_mirror (r : Render) (h : Hook) :
  typingDisabledRef h = true ->
  typingDisabledRef (contentEffect r h) = true
  /\ timers (contentEffect r h) = timers h
  /\ displayedContent (contentEffect r h) = content (rProps r).
Proof.
  intros Hd. unfold contentEffect. rewrite Hd.
  destruct (isComplete (rProps r)); cbn; repeat split; assumption.
Qed.

Lemma completionEffect_mirror (r : Render) (h : Hook) :
  typingDisabledRef h = true ->
  timers h = [] ->
  displayedContent h = content (rProps r) ->
  typingDisabledRef (completionEffect r h) = true
  /\ timers (completionEffect r h) = []
  /\ displayedContent (completionEffect r h) = content (rProps r).
Proof.
  intros Hd Ht Hs. unfold completionEffect.
  destruct (_ || _)%bool; [|repeat split; assumption].
  unfold showFinalContentWithCitations, clearPendingTimeout.
  destruct (timeoutRef h); cbn; rewrite ?Ht; repeat split; assumption.
Qed.

Lemma handler_mirror (r : Render) (v : Visibility) (h : Hook) :
  typingDisabledRef h = true ->
  timers h = [] ->
  displayedContent h = content (rProps r) ->
  typingDisabledRef (handleVisibilityChange r v h) = true
  /\ timers (handleVisibilityChange r v h) = []
  /\ displayedContent (handleVisibilityChange r v h) = content (rProps r).
Proof.
  intros Hd Ht Hs. unfold handleVisibilityChange. destruct v.
  - destruct (_ || _)%bool; cbn; repeat split; assumption.
  - destruct (_ && _ && _)%bool; [|repeat split; assumption].
    assert (Hclear : typingDisabledRef (setIsTypingRef false (clearPendingTimeout h)) = true
                     /\ timers (setIsTypingRef false (clearPendingTimeout h)) = []
                     /\ displayedContent (setIsTypingRef false (clearPendingTimeout h))
                        = content (rProps r)).
    { unfold clearPendingTimeout.
      destruct (timeoutRef h); cbn; rewrite ?Ht; repeat split; assumption. }
    destruct Hclear as (Hd' & Ht' & Hs').
    destruct (0 <? _); [|repeat split; assumption].
    destruct (startTyping_idle r (content (rProps r))
                (String.length (rDisplayed r))
                (setIsTypingRef false (clearPendingTimeout h)))
      as (Ht2 & _ & _ & Hs2 & _ & Hd2 & _).
    rewrite Ht2, Hs2, Hd2. repeat split; assumption.
Qed.

Lemma step_mirroring (w : World) (m : Mounted) (e : Event) :
  component w = Some m ->
  Mirroring m ->
  e <> Unmount ->
  exists m', component (step w e) = Some m' /\ Mirroring m'.
Proof.
  intros Hm (Hd & Ht & Hs & Hh) He. unfold step. rewrite Hm.
  destruct e as [p|tid|v|]; [| | |contradiction].
  - unfold update.
    set (r := renderOf p (hook m)).
    assert (H1 : typingDisabledRef
                   (if contentDepsChanged (props m) p
                    then contentEffect r (hook m) else hook m) = true
                 /\ timers (if contentDepsChanged (props m) p
                            then contentEffect r (hook m) else hook m) = []
                 /\ displayedContent
                      (if contentDepsChanged (props m) p
                       then contentEffect r (hook m) else hook m) = content p).
    { destruct (contentDepsChanged (props m) p) eqn:Hdeps.
      - destruct (contentEffect_mirror r (hook m) Hd) as (A & B & C).
        repeat split; [exact A | now rewrite B | exact C].
      - apply contentDeps_same in Hdeps.
        repeat split; [exact Hd | exact Ht | congruence]. }
    destruct H1 as (Hd1 & Ht1 & Hs1).
    assert (H2 : typingDisabledRef
                   (if completionDepsChanged (props m) p
                    then completionEffect r
                           (if contentDepsChanged (props m) p
                            then contentEffect r (hook m) else hook m)
                    else (if contentDepsChanged (props m) p
                          then contentEffect r (hook m) else hook m)) = true
                 /\ timers
                      (if completionDepsChanged (props m) p
                       then completionEffect r
                              (if contentDepsChanged (props m) p
                               then contentEffect r (hook m) else hook m)
                       else (if contentDepsChanged (props m) p
                             then contentEffect r (hook m) else hook m)) = []
                 /\ displayedContent
                      (if completionDepsChanged (props m) p
                       then completionEffect r
                              (if contentDepsChanged (props m) p
                               then contentEffect r (hook m) else hook m)
                       else (if contentDepsChanged (props m) p
                             then contentEffect r (hook m) else hook m))
                    = content p).
    { destruct (completionDepsChanged (props m) p);
        [exact (completionEffect_mirror r _ Hd1 Ht1 Hs1)
        | repeat split; assumption]. }
    destruct H2 as (Hd2 & Ht2 & Hs2).
    match goal with
    | |- exists m', component (rerender ?st ?m0) = Some m' /\ _ =>
        destruct (rerender_mirroring st m0) as (m' & Hm' & Hmir & _);
          [assumption ..|]
    end.
    exists m'. split; assumption.
  - assert (Htick : tick tid (hook m) = hook m)
      by (unfold tick; now rewrite Ht).
    destruct (rerender_mirroring (sessionStorage w)
                (withHook m (tick tid (hook m)))) as (m' & Hm' & Hmir & _);
      [cbn [hook props withHook]; now rewrite Htick ..|].
    exists m'. split; assumption.
  - rewrite <- Hh in Hs.
    destruct (handler_mirror (handlerClosure m) v (hook m) Hd Ht Hs)
      as (A & B & C).
    destruct (rerender_mirroring (sessionStorage w)
                (withHook m (handleVisibilityChange (handlerClosure m) v (hook m))))
      as (m' & Hm' & Hmir & _);
      [cbn [hook props withHook]; congruence ..|].
    exists m'. split; assumption.
Qed.

Lemma run_mirroring (es : list Event) (w : World) (m : Mounted) :
  component w = Some m ->
  Mirroring m ->
  staysMounted es = true ->
  exists m', component (run w es) = Some m' /\ Mirroring m'.
Proof.
  revert w m. induction es as [|e es IH]; intros w m Hm Hmir Hes.
  - exists m. split; assumption.
  - cbn [staysMounted forallb] in Hes. apply andb_true_iff in Hes as [He Hes].
    destruct (step_mirroring w m e Hm Hmir) as (m1 & Hm1 & Hmir1).
    { intros ->. discriminate. }
    cbn [run fold_left]. fold (run (step w e) es).
    now apply (IH _ m1).
Qed.

Lemma mount_mirroring (storage : gmap string string) (p : Props) (key : string) :
  storageKey p = Some key ->
  storage !! key = Some "1" ->
  exists m, component (mount storage p) = Some m /\ Mirroring m.
Proof.
  intros Hkey Hflag.
  destruct (mount_disabled storage p key Hkey Hflag) as (Hs & Ht & Hd & _).
  unfold mount in *.
  match goal with
  | |- exists m, component (rerender ?st ?m0) = Some m /\ _ =>
      destruct (rerender_mirroring st m0) as (m' & Hm' & Hmir & _);
        [assumption ..|]
  end.
  exists m'. split; assumption.
Qed.

End ModeFacts.

(** ** The typewriter: the reveal of a plain content *)

Module RevealFacts.
Import Typewriter Session Plain StringFacts TypewriterFacts CompletionFacts
  PlainFacts ModeFacts.

#[local] Arguments Citations.filterCitationsForTyping : simpl never.

Lemma take_all (s : string) : JS.take (String.length s) s = s.
Proof.
  unfold JS.take. induction s as [|c s IH]; cbn; [reflexivity|].
  now rewrite IH.
Qed.

Lemma mountEffect_unflagged (storage : gmap string string) (p : Props)
    (h : Hook) :
  unflagged storage p -> mountEffect storage (renderOf p h) h = h.
Proof.
  intros Hun. unfold mountEffect. cbn [renderOf rProps].
  destruct (storageKey p) as [key|] eqn:Hkey; [|reflexivity].
  rewrite bool_decide_eq_false_2 by (now apply Hun). reflexivity.
Qed.

Lemma mount_typing (storage : gmap string string) (p : Props) :
  unflagged storage p ->
  (isComplete p || shared p)%bool = false ->
  hasParen (content p) = false ->
  content p <> EmptyString ->
  TypingAt (content p) 0 (hookOf (mount storage p)).
Proof.
  intros Hun Hq Hplain Hne. unfold mount. rewrite hookOf_rerender.
  rewrite (completionEffect_quiet (renderOf p initialHook)) by exact Hq.
  rewrite mountEffect_unflagged by exact Hun.
  unfold contentEffect, continueTyping, typeNextChar, TypingAt.
  cbn [renderOf rProps rComplete initialHook typingDisabledRef lastContentRef
       currentTypingIndexRef isTypingRef isTypingComplete setIsTypingRef
       fullContent currentIndex sawTypingComplete JS.drop].
  rewrite (filter_plain _ Hplain).
  destruct (content p) as [|c s] eqn:Hc; [contradiction|].
  cbn [String.eqb JS.startsWith String.prefix negb andb String.length
       Nat.ltb Nat.leb].
  destruct s as [|c' s']; cbn; repeat split.
Qed.

Lemma tick_typing (c : string) (j : nat) (h : Hook) :
  hasParen c = false ->
  S j < String.length c ->
  TypingAt c j h ->
  TypingAt c (S j) (tick (S j) h).
Proof.
  intros Hplain Hlt (Hd & Hi & Hc & Ht).
  assert (Hb : (S j <? String.length c) = true) by now apply Nat.ltb_lt.
  rewrite Hb in Ht. destruct Ht as (Ht & Hr & Hn).
  unfold tick, findTimer. rewrite Ht. cbn [List.find fst snd].
  rewrite Nat.eqb_refl. unfold typeNextChar, TypingAt.
  cbn [snd fireTimer isTypingRef fullContent currentIndex sawTypingComplete].
  rewrite Hb, Hr, (filter_plain _ Hplain). cbn [negb andb].
  destruct (S (S j) <? String.length c) eqn:Hmore; cbn;
    rewrite ?Ht, ?Hn, ?Hc; cbn; rewrite ?Nat.eqb_refl; cbn; repeat split;
    assumption.
Qed.

Lemma hookOf_step_tick (w : World) (tid : nat) :
  hookOf (step w (Tick tid)) = tick tid (hookOf w).
Proof.
  unfold step, hookOf. destruct (component w) as [m|] eqn:Hm.
  - reflexivity.
  - now rewrite Hm.
Qed.

Lemma ticks_succ (j : nat) : ticks (S j) = ticks j ++ [Tick (S j)].
Proof.
  unfold ticks. rewrite seq_S, List.map_app. reflexivity.
Qed.

Lemma run_app (w : World) (es1 es2 : list Event) :
  run w (es1 ++ es2) = run (run w es1) es2.
Proof. unfold run. apply fold_left_app. Qed.

Lemma run_typing (storage : gmap string string) (p : Props) (j : nat) :
  unflagged storage p ->
  (isComplete p || shared p)%bool = false ->
  hasParen (content p) = false ->
  j < String.length (content p) ->
  TypingAt (content p) j (hookOf (run (mount storage p) (ticks j))).
Proof.
  intros Hun Hq Hplain. induction j as [|j IH]; intros Hlt.
  - apply mount_typing; try assumption.
    intros Hc. rewrite Hc in Hlt. cbn in Hlt. lia.
  - rewrite ticks_succ, run_app. cbn [run fold_left].
    rewrite hookOf_step_tick. apply tick_typing; [assumption | lia |].
    apply IH. lia.
Qed.

(** *** What is displayed is a prefix of the content *)

Lemma prefix_trans (a b c : string) :
  String.prefix a b = true -> String.prefix b c = true ->
  String.prefix a c = true.
Proof.
  revert b c. induction a as [|x a IH]; intros b c Hab Hbc;
    [apply prefix_empty|].
  destruct b as [|y b]; [discriminate|].
  destruct c as [|z c]; [discriminate|].
  cbn in *. destruct (ascii_dec x y) as [->|]; [|discriminate].
  destruct (ascii_dec y z) as [->|]; [|discriminate].
  destruct (ascii_dec z z); [|contradiction]. now apply (IH b).
Qed.

Lemma prefix_take (n : nat) (s : string) : String.prefix (JS.take n s) s = true.
Proof.
  unfold JS.take. revert s. induction n as [|n IH]; intros [|c s]; cbn;
    try reflexivity.
  destruct (ascii_dec c c); [apply IH | contradiction].
Qed.

Lemma prefix_plain (a b : string) :
  String.prefix a b = true -> hasParen b = false -> hasParen a = false.
Proof.
  revert b. induction a as [|x a IH]; intros b Hab Hb; [reflexivity|].
  destruct b as [|y b]; [discriminate|]. cbn in *.
  destruct (ascii_dec x y) as [->|]; [|discriminate].
  apply orb_false_iff in Hb as [Hy Hb]. rewrite Hy. cbn. now apply (IH b).
Qed.

Lemma dropTimer_In (tid : nat) (ts : list (nat * Closure)) (t : nat * Closure) :
  In t (dropTimer tid ts) -> In t ts.
Proof. unfold dropTimer. intros Hin. now apply List.filter_In in Hin. Qed.

Lemma shown_grow (c c' : string) (h : Hook) :
  ShownHook c h -> String.prefix c c' = true -> ShownHook c' h.
Proof.
  intros [Hd Ht] Hext. split.
  - now apply (prefix_trans _ c).
  - intros tid cl Hin. apply (prefix_trans _ c); [now apply (Ht tid) | exact Hext].
Qed.

Lemma typeNextChar_shown (c : string) (cl : Closure) (h : Hook) :
  hasParen c = false ->
  String.prefix (fullContent cl) c = true ->
  ShownHook c h ->
  ShownHook c (typeNextChar cl h).
Proof.
  intros Hplain Hcl [Hd Ht]. unfold typeNextChar.
  rewrite (filter_plain _ (prefix_plain _ _ Hcl Hplain)).
  assert (Htake : forall n, String.prefix (JS.take n (fullContent cl)) c = true)
    by (intros n; apply (prefix_trans _ (fullContent cl));
        [apply prefix_take | exact Hcl]).
  destruct (_ && _ && _)%bool; [|split; [exact Hd | exact Ht]].
  destruct (_ <? _); split; cbn; try apply Htake; try exact Ht.
  intros tid cl' Hin. apply in_app_or in Hin as [Hin | [Heq | []]].
  - now apply (Ht tid).
  - injection Heq as <- <-. exact Hcl.
Qed.

Lemma continueTyping_shown (r : Render) (c : string) (i : nat) (h : Hook) :
  hasParen c = false ->
  ShownHook c h ->
  ShownHook c (continueTyping r c i h).
Proof.
  intros Hplain Hs. unfold continueTyping.
  destruct (isTypingRef h); [exact Hs|].
  apply typeNextChar_shown; [exact Hplain | apply prefix_refl | exact Hs].
Qed.

Lemma contentEffect_shown (r : Render) (h : Hook) :
  hasParen (content (rProps r)) = false ->
  JS.startsWith (content (rProps r)) (lastContentRef h) = true ->
  ShownHook (lastContentRef h) h ->
  ShownHook (content (rProps r)) (contentEffect r h)
  /\ lastContentRef (contentEffect r h) = content (rProps r).
Proof.
  intros Hplain Hext Hs.
  pose proof (shown_grow _ _ h Hs Hext) as Hs'.
  unfold contentEffect. rewrite Hext.
  destruct (typingDisabledRef h).
  - destruct Hs' as [_ Ht].
    destruct (isComplete (rProps r)); cbn; (split; [split|reflexivity]);
      cbn; try apply prefix_refl; exact Ht.
  - rewrite andb_false_r, andb_true_r.
    destruct (_ <? _) eqn:Hgrow.
    + destruct (0 <? _); (split; [|reflexivity]).
      * apply (continueTyping_shown r _ (currentTypingIndexRef h)) in Hs';
          [|exact Hplain].
        destruct Hs' as [Hd Ht]. split; [exact Hd | exact Ht].
      * exact Hs'.
    + apply Nat.ltb_ge in Hgrow.
      pose proof (prefix_same_length _ _ Hext Hgrow) as Heq.
      split; [exact Hs' | now symmetry].
Qed.

Lemma clearPendingTimeout_shown (c : string) (h : Hook) :
  ShownHook c h -> ShownHook c (clearPendingTimeout h).
Proof.
  intros [Hd Ht]. unfold clearPendingTimeout.
  destruct (timeoutRef h) as [tid|]; [|split; assumption].
  split; [exact Hd|]. cbn. intros tid' cl Hin.
  apply dropTimer_In in Hin. now apply (Ht tid').
Qed.

Lemma completionEffect_shown (r : Render) (h : Hook) :
  ShownHook (content (rProps r)) h ->
  ShownHook (content (rProps r)) (completionEffect r h)
  /\ lastContentRef (completionEffect r h) = lastContentRef h.
Proof.
  intros Hs. unfold completionEffect.
  destruct (_ || _)%bool; [|split; [exact Hs | reflexivity]].
  apply clearPendingTimeout_shown in Hs. destruct Hs as [_ Ht].
  unfold showFinalContentWithCitations. split.
  - split; cbn; [apply prefix_refl | exact Ht].
  - unfold clearPendingTimeout. now destruct (timeoutRef h).
Qed.

Lemma handler_shown (r : Render) (v : Visibility) (h : Hook) :
  ShownHook (content (rProps r)) h ->
  ShownHook (content (rProps r)) (handleVisibilityChange r v h)
  /\ lastContentRef (handleVisibilityChange r v h) = lastContentRef h.
Proof.
  intros Hs. unfold handleVisibilityChange. destruct v.
  - destruct (_ || _)%bool; [|split; [exact Hs | reflexivity]].
    destruct Hs as [_ Ht]. split; [|reflexivity].
    split; cbn; [apply prefix_refl | exact Ht].
  - destruct (_ && _ && _)%bool; [|split; [exact Hs | reflexivity]].
    apply clearPendingTimeout_shown in Hs. destruct Hs as [Hd Ht].
    assert (Hlast : lastContentRef (setIsTypingRef false (clearPendingTimeout h))
                    = lastContentRef h)
      by (unfold clearPendingTimeout; now destruct (timeoutRef h)).
    destruct (0 <? _); [|split; [split; assumption | exact Hlast]].
    destruct (startTyping_idle r (content (rProps r))
                (String.length (rDisplayed r))
                (setIsTypingRef false (clearPendingTimeout h)))
      as (Ht2 & _ & _ & Hd2 & _ & _ & Hl2).
    split; [split|].
    + rewrite Hd2. exact Hd.
    + rewrite Ht2. exact Ht.
    + now rewrite Hl2.
Qed.

Lemma tick_shown (c : string) (tid : nat) (h : Hook) :
  hasParen c = false ->
  ShownHook c h ->
  ShownHook c (tick tid h) /\ lastContentRef (tick tid h) = lastContentRef h.
Proof.
  intros Hplain [Hd Ht]. unfold tick.
  destruct (findTimer tid (timers h)) as [cl|] eqn:Hfind;
    [|split; [split; assumption | reflexivity]].
  apply findTimer_In in Hfind. split.
  - apply typeNextChar_shown; [exact Hplain | now apply (Ht tid) |].
    split; [exact Hd|]. cbn. intros tid' cl' Hin.
    apply dropTimer_In in Hin. now apply (Ht tid').
  - unfold typeNextChar.
    destruct (_ && _ && _)%bool; [destruct (_ <? _)|]; reflexivity.
Qed.

Lemma rerender_shown (storage : gmap string string) (m : Mounted) :
  ShownHook (content (props m)) (hook m) ->
  lastContentRef (hook m) = content (props m) ->
  hasParen (content (props m)) = false ->
  exists m', component (rerender storage m) = Some m' /\ Shown m'.
Proof.
  intros Hs Hl Hp. eexists. split; [reflexivity|].
  unfold Shown. cbn [hook props handlerClosure].
  repeat split; try assumption; try apply Hs.
  destruct (handlerDepsChanged _ _) eqn:E; [reflexivity|].
  now apply handlerDeps_content in E.
Qed.

Lemma mount_shown (storage : gmap string string) (p : Props) :
  hasParen (content p) = false ->
  exists m, component (mount storage p) = Some m /\ Shown m.
Proof.
  intros Hplain. unfold mount.
  set (r := renderOf p initialHook).
  assert (H0 : ShownHook (lastContentRef (mountEffect storage r initialHook))
                 (mountEffect storage r initialHook)).
  { unfold mountEffect.
    destruct (storageKey (rProps r)); [destruct (bool_decide _)|];
      try (split; [reflexivity | intros tid cl []]).
    destruct (isComplete (rProps r)); cbn;
      (split; cbn; [apply prefix_refl | intros tid cl []]). }
  destruct (mountEffect_paced storage r) as [_ Hext].
  destruct (contentEffect_shown r _ Hplain Hext H0) as [H1 Hl1].
  destruct (completionEffect_shown r _ H1) as [H2 Hl2].
  apply rerender_shown; cbn [hook props]; try assumption.
  rewrite Hl2, Hl1. reflexivity.
Qed.

Lemma step_shown (w : World) (m : Mounted) (e : Event) :
  component w = Some m ->
  Shown m ->
  plainEvent w e = true ->
  exists m', component (step w e) = Some m' /\ Shown m'.
Proof.
  intros Hm (Hs & Hl & Hh & Hp) He. unfold plainEvent in He. rewrite Hm in He.
  unfold step. rewrite Hm.
  destruct e as [p|tid|v|]; [| | |discriminate].
  - apply andb_true_iff in He as [Hext Hplain].
    apply negb_true_iff in Hplain. unfold update.
    set (r := renderOf p (hook m)).
    assert (H1 : ShownHook (content p)
                   (if contentDepsChanged (props m) p
                    then contentEffect r (hook m) else hook m)
                 /\ lastContentRef
                      (if contentDepsChanged (props m) p
                       then contentEffect r (hook m) else hook m) = content p).
    { destruct (contentDepsChanged (props m) p) eqn:Hdeps.
      - apply (contentEffect_shown r); cbn [r renderOf rProps];
          rewrite ?Hl; assumption.
      - apply contentDeps_same in Hdeps. rewrite <- Hdeps.
        split; assumption. }
    destruct H1 as [H1 Hl1].
    apply rerender_shown; cbn [hook props]; [| |exact Hplain].
    + destruct (completionDepsChanged (props m) p); [|exact H1].
      now apply (completionEffect_shown r).
    + destruct (completionDepsChanged (props m) p); [|exact Hl1].
      destruct (completionEffect_shown r _ H1) as [_ Hl2]. congruence.
  - destruct (tick_shown _ tid (hook m) Hp Hs) as [Hs' Hl'].
    apply rerender_shown; cbn [hook props withHook]; try assumption.
    congruence.
  - rewrite <- Hh in Hs.
    destruct (handler_shown (handlerClosure m) v (hook m) Hs) as [Hs' Hl'].
    rewrite Hh in Hs'.
    apply rerender_shown; cbn [hook props withHook]; try assumption.
    congruence.
Qed.

Lemma run_shown (es : list Event) (w : World) (m : Mounted) :
  component w = Some m ->
  Shown m ->
  plainRun w es = true ->
  exists m', component (run w es) = Some m' /\ Shown m'.
Proof.
  revert w m. induction es as [|e es IH]; intros w m Hm Hs Hes.
  - exists m. split; assumption.
  - cbn [plainRun] in Hes. apply andb_true_iff in Hes as [He Hes].
    destruct (step_shown w m e Hm Hs He) as (m1 & Hm1 & Hs1).
    cbn [run fold_left]. fold (run (step w e) es).
    now apply (IH _ m1).
Qed.

End RevealFacts.

(** ** The typewriter: a streaming message and the hidden tab *)

Module StreamingFacts.
Import Typewriter Session Plain StringFacts TypewriterFacts CompletionFacts
  CitationFacts ModeFacts RevealFacts.

#[local] Arguments Citations.filterCitationsForTyping : simpl never.

Lemma take_shorter (n : nat) (s : string) :
  String.length (JS.take n s) <= String.length s.
Proof. apply prefix_length, prefix_take. Qed.

Lemma bounded_grow (n n' : nat) (h : Hook) :
  BoundedHook n h -> n <= n' -> BoundedHook n' h.
Proof.
  intros [Hd Ht] Hle. split; [lia|].
  intros tid cl Hin. specialize (Ht tid cl Hin). lia.
Qed.

Lemma typeNextChar_bounded (n : nat) (cl : Closure) (h : Hook) :
  String.length (fullContent cl) <= n ->
  BoundedHook n h ->
  BoundedHook n (typeNextChar cl h).
Proof.
  intros Hcl [Hd Ht]. unfold typeNextChar.
  pose proof (filter_length (fullContent cl)) as Hf.
  assert (Htake : forall i,
             String.length
               (JS.take i (Citations.filterCitationsForTyping (fullContent cl)))
             <= n)
    by (intros i;
        pose proof (take_shorter i
                      (Citations.filterCitationsForTyping (fullContent cl)));
        lia).
  destruct (_ && _ && _)%bool; [|split; [exact Hd | exact Ht]].
  destruct (_ <? _); split; cbn; try apply Htake; try exact Ht.
  intros tid cl' Hin. apply in_app_or in Hin as [Hin | [Heq | []]].
  - now apply (Ht tid).
  - injection Heq as <- <-. cbn. lia.
Qed.

Lemma continueTyping_bounded (r : Render) (c : string) (i : nat) (h : Hook) :
  BoundedHook (String.length c) h ->
  BoundedHook (String.length c) (continueTyping r c i h).
Proof.
  intros Hb. unfold continueTyping.
  destruct (isTypingRef h); [exact Hb|].
  apply typeNextChar_bounded; [cbn; lia | exact Hb].
Qed.

Lemma contentEffect_bounded (r : Render) (h : Hook) :
  JS.startsWith (content (rProps r)) (lastContentRef h) = true ->
  BoundedHook (String.length (lastContentRef h)) h ->
  BoundedHook (String.length (content (rProps r))) (contentEffect r h)
  /\ lastContentRef (contentEffect r h) = content (rProps r).
Proof.
  intros Hext Hb.
  pose proof (bounded_grow _ _ h Hb (prefix_length _ _ Hext)) as Hb'.
  unfold contentEffect. rewrite Hext.
  destruct (typingDisabledRef h).
  - destruct Hb' as [_ Ht].
    destruct (isComplete (rProps r)); cbn; (split; [split|reflexivity]);
      cbn; try lia; exact Ht.
  - rewrite andb_false_r, andb_true_r.
    destruct (_ <? _) eqn:Hgrow.
    + destruct (0 <? _); (split; [|reflexivity]).
      * apply (continueTyping_bounded r _ (currentTypingIndexRef h)) in Hb'.
        destruct Hb' as [Hd Ht]. split; [exact Hd | exact Ht].
      * exact Hb'.
    + apply Nat.ltb_ge in Hgrow.
      pose proof (prefix_same_length _ _ Hext Hgrow) as Heq.
      split; [exact Hb' | now symmetry].
Qed.

Lemma clearPendingTimeout_bounded (n : nat) (h : Hook) :
  BoundedHook n h -> BoundedHook n (clearPendingTimeout h).
Proof.
  intros [Hd Ht]. unfold clearPendingTimeout.
  destruct (timeoutRef h) as [tid|]; [|split; assumption].
  split; [exact Hd|]. cbn. intros tid' cl Hin.
  apply dropTimer_In in Hin. now apply (Ht tid').
Qed.

(** The handler of a render that saw less than its content displayed, and
    no completion, never marks the message complete. *)
Lemma handler_streaming (n : nat) (r : Render) (v : Visibility) (h : Hook) :
  rComplete r = false ->
  String.length (rDisplayed r) < String.length (content (rProps r)) ->
  BoundedHook n h ->
  BoundedHook n (handleVisibilityChange r v h)
  /\ lastContentRef (handleVisibilityChange r v h) = lastContentRef h
  /\ isTypingComplete (handleVisibilityChange r v h) = isTypingComplete h.
Proof.
  intros Hrc Hlt Hb. destruct v.
  - unfold handleVisibilityChange. rewrite Hrc.
    assert (Hne : String.eqb (content (rProps r)) (rDisplayed r) = false).
    { apply String.eqb_neq. intros Heq. rewrite Heq in Hlt. lia. }
    rewrite Hne. cbn [orb]. repeat split; apply Hb.
  - split; [|split; [|apply handleVisible_complete]];
      unfold handleVisibilityChange;
      (destruct (_ && _ && _)%bool; [|try exact Hb; reflexivity]).
    + apply clearPendingTimeout_bounded in Hb. destruct Hb as [Hd Ht].
      destruct (0 <? _); [|split; assumption].
      destruct (startTyping_idle r (content (rProps r))
                  (String.length (rDisplayed r))
                  (setIsTypingRef false (clearPendingTimeout h)))
        as (Ht2 & _ & _ & Hd2 & _).
      split; [rewrite Hd2; exact Hd | rewrite Ht2; exact Ht].
    + assert (Hlast : lastContentRef
                        (setIsTypingRef false (clearPendingTimeout h))
                      = lastContentRef h)
        by (unfold clearPendingTimeout; now destruct (timeoutRef h)).
      destruct (0 <? _); [|exact Hlast].
      destruct (startTyping_idle r (content (rProps r))
                  (String.length (rDisplayed r))
                  (setIsTypingRef false (clearPendingTimeout h)))
        as (_ & _ & _ & _ & _ & _ & Hl2).
      now rewrite Hl2.
Qed.

Lemma tick_bounded (n : nat) (tid : nat) (h : Hook) :
  BoundedHook n h ->
  BoundedHook n (tick tid h) /\ lastContentRef (tick tid h) = lastContentRef h.
Proof.
  intros [Hd Ht]. unfold tick.
  destruct (findTimer tid (timers h)) as [cl|] eqn:Hfind;
    [|split; [split; assumption | reflexivity]].
  apply findTimer_In in Hfind. split.
  - apply typeNextChar_bounded; [now apply (Ht tid)|].
    split; [exact Hd|]. cbn. intros tid' cl' Hin.
    apply dropTimer_In in Hin. now apply (Ht tid').
  - unfold typeNextChar.
    destruct (_ && _ && _)%bool; [destruct (_ <? _)|]; reflexivity.
Qed.

(** A render keeps the handler of a streaming message. *)
Lemma rerender_streaming (storage : gmap string string) (m : Mounted) :
  Streaming m ->
  exists m', component (rerender storage m) = Some m' /\ Streaming m'.
Proof.
  intros (Hb & Hl & Hc & Hrc & Hh & Hlt). eexists. split; [reflexivity|].
  assert (Hkeep : handlerDepsChanged (handlerClosure m)
                    (renderOf (props m) (hook m)) = false).
  { unfold handlerDepsChanged. cbn [renderOf rProps rComplete].
    rewrite Hh, String.eqb_refl, Hrc, Hc. reflexivity. }
  unfold Streaming. cbn [hook props handlerClosure]. rewrite Hkeep.
  split; [exact Hb|]. split; [exact Hl|]. split; [exact Hc|].
  split; [exact Hrc|]. split; [exact Hh | exact Hlt].
Qed.

Lemma mount_streaming (storage : gmap string string) (p : Props) :
  content p <> EmptyString ->
  (isComplete p || shared p)%bool = false ->
  exists m, component (mount storage p) = Some m /\ Streaming m.
Proof.
  intros Hne Hq. unfold mount.
  set (r := renderOf p initialHook).
  rewrite (completionEffect_quiet r) by exact Hq.
  assert (H0 : BoundedHook
                 (String.length (lastContentRef (mountEffect storage r initialHook)))
                 (mountEffect storage r initialHook)).
  { unfold mountEffect.
    destruct (storageKey (rProps r)); [destruct (bool_decide _)|];
      try (split; [cbn; lia | intros tid cl []]).
    destruct (isComplete (rProps r)); cbn;
      (split; cbn; [lia | intros tid cl []]). }
  destruct (mountEffect_paced storage r) as [_ Hext].
  destruct (contentEffect_bounded r _ Hext H0) as [H1 Hl1].
  apply rerender_streaming. unfold Streaming. cbn [hook props handlerClosure].
  split; [exact H1|]. split; [exact Hl1|].
  apply orb_false_iff in Hq as [Hic _].
  split; [apply contentEffect_quiet; [exact Hic | now apply mountEffect_quiet]|].
  split; [reflexivity|]. split; [reflexivity|].
  cbn. destruct (content p); [contradiction | cbn; lia].
Qed.

Lemma step_streaming (w : World) (m : Mounted) (e : Event) :
  component w = Some m ->
  Streaming m ->
  streamingEvent w e = true ->
  exists m', component (step w e) = Some m' /\ Streaming m'.
Proof.
  intros Hm (Hb & Hl & Hc & Hrc & Hh & Hlt) He.
  unfold streamingEvent in He. rewrite Hm in He.
  unfold step. rewrite Hm.
  destruct e as [p|tid|v|]; [| | |discriminate].
  - apply andb_true_iff in He as [Hext Hq].
    apply negb_true_iff in Hq. unfold update.
    set (r := renderOf p (hook m)).
    assert (Hic : isComplete p = false)
      by (destruct (isComplete p); [discriminate | reflexivity]).
    assert (Hquiet : forall h, (if completionDepsChanged (props m) p
                                then completionEffect r h else h) = h).
    { intros h. destruct (completionDepsChanged (props m) p); [|reflexivity].
      now apply completionEffect_quiet. }
    rewrite Hquiet.
    assert (H1 : BoundedHook (String.length (content p))
                   (if contentDepsChanged (props m) p
                    then contentEffect r (hook m) else hook m)
                 /\ lastContentRef
                      (if contentDepsChanged (props m) p
                       then contentEffect r (hook m) else hook m) = content p
                 /\ isTypingComplete
                      (if contentDepsChanged (props m) p
                       then contentEffect r (hook m) else hook m) = false).
    { destruct (contentDepsChanged (props m) p) eqn:Hdeps.
      - destruct (contentEffect_bounded r (hook m)) as [Hb1 Hl1];
          cbn [r renderOf rProps]; rewrite ?Hl; try assumption.
        split; [exact Hb1|]. split; [exact Hl1|].
        now apply contentEffect_quiet.
      - apply contentDeps_same in Hdeps. rewrite <- Hdeps.
        repeat split; try assumption; apply Hb. }
    destruct H1 as (H1 & Hl1 & Hc1).
    apply rerender_streaming. unfold Streaming. cbn [hook props handlerClosure].
    split; [exact H1|]. split; [exact Hl1|]. split; [exact Hc1|].
    destruct (handlerDepsChanged (handlerClosure m) r) eqn:Hdeps.
    + cbn [r renderOf rProps rComplete rDisplayed].
      split; [exact Hc|]. split; [reflexivity|].
      unfold handlerDepsChanged in Hdeps.
      cbn [r renderOf rProps rComplete] in Hdeps.
      rewrite Hrc, Hc, Hh in Hdeps. cbn in Hdeps.
      rewrite andb_true_r in Hdeps. apply negb_true_iff in Hdeps.
      apply String.eqb_neq in Hdeps.
      destruct Hb as [Hd _].
      pose proof (prefix_length _ _ Hext) as Hle.
      destruct (Nat.eq_dec (String.length (content p))
                  (String.length (content (props m)))) as [Heq|Hneq]; [|lia].
      exfalso. apply Hdeps.
      apply (prefix_same_length _ _ Hext). lia.
    + apply handlerDeps_content in Hdeps. rewrite Hh in Hdeps.
      split; [exact Hrc|]. split; [now rewrite Hh|]. now rewrite <- Hdeps.
  - destruct (tick_bounded _ tid (hook m) Hb) as [Hb' Hl'].
    apply rerender_streaming. unfold Streaming.
    cbn [hook props handlerClosure withHook].
    split; [exact Hb'|]. split; [now rewrite Hl'|].
    split; [now rewrite tick_complete|].
    split; [exact Hrc|]. split; [exact Hh | exact Hlt].
  - rewrite <- Hh in Hlt.
    destruct (handler_streaming _ (handlerClosure m) v (hook m) Hrc Hlt Hb)
      as (Hb' & Hl' & Hc').
    rewrite Hh in Hlt.
    apply rerender_streaming. unfold Streaming.
    cbn [hook props handlerClosure withHook].
    split; [exact Hb'|]. split; [now rewrite Hl'|].
    split; [now rewrite Hc'|].
    split; [exact Hrc|]. split; [exact Hh | exact Hlt].
Qed.

Lemma run_streaming (es : list Event) (w : World) (m : Mounted) :
  component w = Some m ->
  Streaming m ->
  streamingRun w es = true ->
  exists m', component (run w es) = Some m' /\ Streaming m'.
Proof.
  revert w m. induction es as [|e es IH]; intros w m Hm Hs Hes.
  - exists m. split; assumption.
  - cbn [streamingRun] in Hes. apply andb_true_iff in Hes as [He Hes].
    destruct (step_streaming w m e Hm Hs He) as (m1 & Hm1 & Hs1).
    cbn [run fold_left]. fold (run (step w e) es).
    now apply (IH _ m1).
Qed.

End StreamingFacts.

(** * Further properties of the decoders and of the typewriter *)

Import Stream Consumer Plain Typewriter Session Sample.

(** ** The newline-JSON decoder *)

(** X1: a chunk made of complete lines, each a non-empty text without
    newline that parses to a truthy value, yields all these values, in
    order, in one call, and leaves no partial. *)
Theorem batched_lines_decode {T : Type} `{Parser T} (lines : list string)
    (values : list T) :
  Forall (fun l => JS.hasNewline l = false /\ l <> EmptyString) lines ->
  Forall2 (fun l v => jsonParse l = Some v /\ isTruthy v = true) lines values ->
  processRawChunkString (completeLines lines) None = (values, None).
Proof.
  intros Hlines Hparse. unfold processRawChunkString.
  rewrite (ConsumerFacts.sections_of_lines lines Hlines).
  rewrite (ConsumerFacts.decodeSections_lines lines values [] Hparse).
  destruct (JS.isEmpty (completeLines lines)) eqn:Hempty; [|reflexivity].
  destruct lines as [|l lines]; [now inversion Hparse|].
  inversion Hlines as [|? ? [_ Hl] _]; subst.
  destruct l; [contradiction | discriminate].
Qed.

Lemma batched_lines_decode_witness :
  processRawChunkString (T := Json.value)
    (completeLines [text "{'a':1}"; text "[2]"]) None
  = ([Json.Obj [(Json.units "a", Json.Number false 1 0)];
      Json.Arr [Json.Number false 2 0]], None).
Proof.
  apply (batched_lines_decode (T := Json.value)).
  - repeat constructor; discriminate.
  - repeat constructor.
Defined.


(** X3: the partial the decoder holds is never the empty string, unless it
    was given one: the test of the consumer for a missing partial only
    meets null. *)
Theorem partial_never_empty_string {T : Type} `{Parser T}
    (chunks : list string) (p : option string) :
  p <> Some EmptyString ->
  snd (decodeChunks (T := T) p chunks) <> Some EmptyString.
Proof.
  revert p. induction chunks as [|c chunks IH]; intros p Hp; [exact Hp|].
  cbn [decodeChunks].
  pose proof (ConsumerFacts.processRawChunkString_partial c p Hp) as Hc.
  destruct (processRawChunkString c p) as [events p'].
  specialize (IH p' Hc). destruct (decodeChunks p' chunks) as [later final].
  exact IH.
Qed.

Lemma partial_never_empty_string_witness :
  snd (decodeChunks (T := Json.value) None [text "{'a'"; text "~"])
  <> Some EmptyString.
Proof.
  apply (partial_never_empty_string (T := Json.value)). discriminate.
Defined.

(** X4: a chunk that holds newlines only yields no event and keeps the
    partial as it is (unlike the empty chunk, which clears it). *)
Theorem newline_only_chunk {T : Type} `{Parser T} (chunk : string)
    (p : option string) :
  JS.isEmpty chunk = false ->
  JS.removeNewlines chunk = EmptyString ->
  processRawChunkString (T := T) chunk p = ([], p).
Proof.
  intros Hne Hnl. unfold processRawChunkString. rewrite Hne.
  now rewrite (ConsumerFacts.sections_of_newlines chunk Hnl).
Qed.

Lemma newline_only_chunk_witness :
  processRawChunkString (T := Json.value) (text "~~") (Some "{")
  = ([], Some "{").
Proof.
  apply (newline_only_chunk (T := Json.value)); reflexivity.
Defined.

(** ** The stream consumer *)

(** X5: when every read gives an event or leaves a partial, [handleStream]
    yields one batch per read and finishes; the batches, one after the
    other, are the events of decoding the chunks in sequence. *)
Theorem live_stream_batches {T : Type} `{Parser T} (chunks : list string) :
  liveReads (T := T) None chunks = true ->
  exists batches : list (list T),
    handleStream (reads chunks) = (batches, Finished)
    /\ List.length batches = List.length chunks
    /\ List.concat batches = fst (decodeChunks None chunks).
Proof.
  intros Hlive.
  destruct (ConsumerFacts.handleStreamFrom_live chunks [] None Hlive)
    as (batches & Hlen & Hcat & Hrun).
  exists batches. unfold handleStream. rewrite app_nil_r in Hrun.
  rewrite Hrun. cbn. rewrite app_nil_r. repeat split; assumption.
Qed.

Lemma live_stream_batches_witness :
  exists batches : list (list Json.value),
    handleStream (reads [text "{'a'"; text ":1}~{'b':2}~"])
    = (batches, Finished)
    /\ List.length batches = 2
    /\ List.concat batches
       = fst (decodeChunks None [text "{'a'"; text ":1}~{'b':2}~"]).
Proof.
  apply (live_stream_batches (T := Json.value)). vm_compute. reflexivity.
Defined.

(** X6: when a read delivers nothing after reads that all gave an event or
    left a partial, [handleStream] throws its protocol error after it has
    yielded the batches of these reads. *)
Theorem absent_read_throws {T : Type} `{Parser T} (chunks : list string)
    (rest : list Read) :
  liveReads (T := T) None chunks = true ->
  exists batches : list (list T),
    handleStream (reads chunks ++ Absent :: rest)
    = (batches, Threw "Unable to process chunk")
    /\ List.concat batches = fst (decodeChunks None chunks).
Proof.
  intros Hlive.
  destruct (ConsumerFacts.handleStreamFrom_live chunks (Absent :: rest) None Hlive)
    as (batches & Hlen & Hcat & Hrun).
  exists batches. unfold handleStream. rewrite Hrun. cbn.
  rewrite app_nil_r. split; [reflexivity | exact Hcat].
Qed.

Lemma absent_read_throws_witness :
  exists batches : list (list Json.value),
    handleStream (reads [text "{'a':1}~"] ++ Absent :: [Chunk "x"])
    = (batches, Threw "Unable to process chunk")
    /\ List.concat batches = fst (decodeChunks None [text "{'a':1}~"]).
Proof.
  apply (absent_read_throws (T := Json.value)). vm_compute. reflexivity.
Defined.

(** X7: an empty chunk ends the consumption: whatever is read after it,
    even a read that delivers nothing, [handleStream] behaves as if the
    stream had ended before the empty chunk. *)
Theorem empty_read_ends_stream {T : Type} `{Parser T} (pre : list string)
    (rest : list Read) :
  handleStream (T := T) (reads pre ++ Chunk EmptyString :: rest)
  = handleStream (reads pre).
Proof. apply ConsumerFacts.handleStreamFrom_dead. Qed.

(** ** The SSE decoder *)

(** X8: the SSE decoder does not depend on the chunk boundaries: two
    sequences of chunks with the same text yield the same events. *)
Theorem sse_chunking_invariant {T : Type} `{Parser T}
    (chunks1 chunks2 : list string) :
  joinChunks chunks1 = joinChunks chunks2 ->
  handleSSEStream (T := T) (reads chunks1) = handleSSEStream (reads chunks2).
Proof.
  intros Htext. rewrite !SseFacts.handleSSEStream_lines. now rewrite Htext.
Qed.

Lemma sse_chunking_invariant_witness :
  handleSSEStream (T := Json.value) (reads [text "da"; text "ta: {'a':1}~"])
  = handleSSEStream (reads [text "data: {'a'"; text ":"; text "1}~"]).
Proof.
  apply (sse_chunking_invariant (T := Json.value)). reflexivity.
Defined.

(** X9: the last line needs no newline: a stream yields the same events
    whether or not a newline chunk follows its text, the rest of the buffer
    being decoded when the reads are done. *)
Theorem sse_final_line_flushed {T : Type} `{Parser T} (chunks : list string) :
  handleSSEStream (T := T) (reads (chunks ++ [String JS.newline EmptyString]))
  = handleSSEStream (reads chunks).
Proof. apply SseMore.sse_trailing_newline. Qed.

(** X10: when a read delivers nothing, the SSE decoder throws its protocol
    error after the events of the complete lines read so far; the line that
    was not yet ended by a newline is not decoded. *)
Theorem sse_absent_read_throws {T : Type} `{Parser T} (chunks : list string)
    (rest : list Read) :
  handleSSEStream (T := T) (reads chunks ++ Absent :: rest)
  = (flat_map sseLine
       (removelast (JS.split JS.newline (joinChunks chunks))),
     Threw "Unable to process chunk").
Proof.
  unfold handleSSEStream.
  now rewrite (SseMore.sseLoop_absent chunks rest EmptyString eq_refl).
Qed.

(** X11: when the payload of a data line does not parse, the events are the
    parsed ones among flat object texts, an opening brace, no brace inside,
    a closing brace: the object around a nested object is never
    recovered. *)
Theorem sse_recovery_flat_objects {T : Type} `{Parser T} (payload : string) :
  jsonParse (T := T) payload = None ->
  exists hits : list string,
    Forall flatObject hits /\ sseData (T := T) payload = parseEach hits.
Proof.
  intros Hparse. unfold sseData. rewrite Hparse.
  destruct (Regex.matchAll braceObject payload) as [hits|] eqn:Hm.
  - exists hits. split; [now apply RecoveryFacts.matchAll_flat in Hm | reflexivity].
  - exists []. split; [constructor | reflexivity].
Qed.

Lemma sse_recovery_flat_objects_witness :
  exists hits : list string,
    Forall flatObject hits
    /\ sseData (T := Json.value) (text "x {'a':{'b':1}}") = parseEach hits.
Proof.
  apply (sse_recovery_flat_objects (T := Json.value)). vm_compute. reflexivity.
Defined.

(** ** The citation filter *)

(** X12: a text without an opening parenthesis is left as it is by the
    filter: every pattern needs one. *)
Theorem plain_text_unfiltered (s : string) :
  hasParen s = false -> Citations.filterCitationsForTyping s = s.
Proof. apply PlainFacts.filter_plain. Qed.

Lemma plain_text_unfiltered_witness :
  Citations.filterCitationsForTyping "See [1] and [[2]]" = "See [1] and [[2]]".
Proof. apply plain_text_unfiltered. reflexivity. Defined.

(** ** The interrupt flag *)



(** X14: the unmount of a component changes the storage under its own key
    at most: the entry of every other key is as before. *)
Theorem unmount_touches_own_key_only (w : World) (m : Mounted) (key : string) :
  component w = Some m ->
  Consistent m ->
  storageKey (props m) <> Some key ->
  sessionStorage (step w Unmount) !! key = sessionStorage w !! key.
Proof. apply SessionFacts.unmount_frame. Qed.

Lemma unmount_touches_own_key_only_witness :
  sessionStorage
    (step (mount {["disableTyping:S:8" := "1"]} (message "Hello" false)) Unmount)
    !! "disableTyping:S:8"
  = sessionStorage (mount {["disableTyping:S:8" := "1"]} (message "Hello" false))
      !! "disableTyping:S:8".
Proof.
  pose (w := mount {["disableTyping:S:8" := "1"]} (message "Hello" false)).
  pose (m := {| hook := hookOf w; props := message "Hello" false;
                cleanupClosure := renderOf (message "Hello" false) initialHook;
                handlerClosure := renderOf (message "Hello" false) initialHook
             |}).
  apply (unmount_touches_own_key_only w m "disableTyping:S:8").
  - vm_compute. reflexivity.
  - vm_compute. repeat split.
  - vm_compute. discriminate.
Defined.

(** ** The typewriter *)

(** X15: when typing is not disabled and the new content does not extend
    the last one, the content effect clears the display, puts the reveal
    index at 0, marks the state incomplete and records the content; it
    schedules no timer and leaves the pending ones, and [isTypingRef] is
    set exactly when the content is not empty. *)
Theorem content_reset (r : Render) (h : Hook) :
  typingDisabledRef h = false ->
  content (rProps r) <> lastContentRef h ->
  JS.startsWith (content (rProps r)) (lastContentRef h) = false ->
  displayedContent (contentEffect r h) = EmptyString
  /\ currentTypingIndexRef (contentEffect r h) = 0
  /\ isTypingComplete (contentEffect r h) = false
  /\ lastContentRef (contentEffect r h) = content (rProps r)
  /\ timers (contentEffect r h) = timers h
  /\ nextTimer (contentEffect r h) = nextTimer h
  /\ isTypingRef (contentEffect r h) = negb (JS.isEmpty (content (rProps r))).
Proof. apply ModeFacts.contentEffect_reset. Qed.

Lemma content_reset_witness :
  let h := hookOf (mount ∅ (message "Hello" false)) in
  let r := renderOf (message "Goodbye" false) h in
  displayedContent (contentEffect r h) = EmptyString
  /\ currentTypingIndexRef (contentEffect r h) = 0
  /\ isTypingComplete (contentEffect r h) = false
  /\ lastContentRef (contentEffect r h) = "Goodbye"
  /\ timers (contentEffect r h) = timers h
  /\ nextTimer (contentEffect r h) = nextTimer h
  /\ isTypingRef (contentEffect r h) = true.
Proof.
  cbv zeta.
  apply (content_reset
           (renderOf (message "Goodbye" false)
              (hookOf (mount ∅ (message "Hello" false))))
           (hookOf (mount ∅ (message "Hello" false)))).
  - vm_compute. reflexivity.
  - vm_compute. discriminate.
  - vm_compute. reflexivity.
Defined.

(** X16: typing alone never marks the message complete: after a mount and
    any updates without the completion and shared flags, ticks and returns
    of the tab, [isTypingComplete] is false, however much was revealed. *)
Theorem typing_alone_never_completes (storage : gmap string string)
    (p : Props) (es : list Event) :
  (isComplete p || shared p)%bool = false ->
  forallb quietEvent es = true ->
  isTypingComplete (hookOf (run (mount storage p) es)) = false.
Proof.
  intros Hq Hes. apply ModeFacts.run_quiet; [exact Hes|].
  now apply ModeFacts.mount_quiet.
Qed.

Lemma typing_alone_never_completes_witness :
  isTypingComplete
    (hookOf (run (mount ∅ (message "Hi" false))
               [Tick 1; Update (message "Hi!" false); Tick 2]))
  = false.
Proof. apply typing_alone_never_completes; reflexivity. Defined.

(** X17: after a mount that finds the flag, the hook mirrors the content:
    whatever updates, ticks and visibility changes follow while the
    component stays mounted, the displayed text is the content last
    rendered and no timer is pending. *)
Theorem disabled_typing_mirrors_content (storage : gmap string string)
    (p : Props) (key : string) (es : list Event) :
  storageKey p = Some key ->
  storage !! key = Some "1" ->
  staysMounted es = true ->
  exists m, component (run (mount storage p) es) = Some m
            /\ displayedContent (hook m) = content (props m)
            /\ timers (hook m) = [].
Proof.
  intros Hkey Hflag Hes.
  destruct (ModeFacts.mount_mirroring storage p key Hkey Hflag) as (m & Hm & Hmir).
  destruct (ModeFacts.run_mirroring es _ m Hm Hmir Hes)
    as (m' & Hm' & _ & Ht & Hd & _).
  exists m'. repeat split; assumption.
Qed.

Lemma disabled_typing_mirrors_content_witness :
  exists m,
    component (run (mount {[flagKey := "1"]} (message "He" false))
                 [Update (message "Hello" false); VisibilityChange Visible;
                  Tick 1])
    = Some m
    /\ displayedContent (hook m) = content (props m)
    /\ timers (hook m) = [].
Proof.
  apply (disabled_typing_mirrors_content _ _ flagKey);
    vm_compute; reflexivity.
Defined.

(** X18: a content without parenthesis, mounted without flag and without
    completion, is revealed one character per tick: after the ticks of the
    timers 1 to j, with j below the length, the first j + 1 characters are
    displayed and the reveal index is j + 1; when these are all, no timer
    is pending and the whole content is displayed, the state still being
    incomplete. *)
Theorem plain_content_revealed_by_ticks (storage : gmap string string)
    (p : Props) (j : nat) :
  unflagged storage p ->
  (isComplete p || shared p)%bool = false ->
  hasParen (content p) = false ->
  j < String.length (content p) ->
  let w := run (mount storage p) (ticks j) in
  displayed w = JS.take (S j) (content p)
  /\ revealIndex w = S j
  /\ isTypingComplete (hookOf w) = false
  /\ (S j = String.length (content p) ->
      displayed w = content p /\ timers (hookOf w) = []).
Proof.
  intros Hun Hq Hplain Hlt w.
  destruct (RevealFacts.run_typing storage p j Hun Hq Hplain Hlt)
    as (Hd & Hi & Hc & Ht).
  fold w in Hd, Hi, Hc, Ht.
  split; [exact Hd|]. split; [exact Hi|]. split; [exact Hc|].
  intros Hall. rewrite Hall in Ht. rewrite Nat.ltb_irrefl in Ht.
  split; [|exact Ht].
  unfold displayed. rewrite Hd, Hall. apply RevealFacts.take_all.
Qed.

Lemma plain_content_revealed_by_ticks_witness :
  let w := run (mount ∅ (message "Hello" false)) (ticks 4) in
  displayed w = JS.take 5 "Hello"
  /\ revealIndex w = 5
  /\ isTypingComplete (hookOf w) = false
  /\ (5 = String.length "Hello" ->
      displayed w = "Hello" /\ timers (hookOf w) = []).
Proof.
  apply (plain_content_revealed_by_ticks ∅ (message "Hello" false) 4).
  - intros key _. rewrite lookup_empty. discriminate.
  - reflexivity.
  - reflexivity.
  - vm_compute. lia.
Defined.

(** X19: while the contents only grow and hold no parenthesis, the hook
    never displays anything but a prefix of the content last rendered:
    after the mount and any such updates, ticks and visibility changes. *)
Theorem displayed_is_prefix_of_content (storage : gmap string string)
    (p : Props) (es : list Event) :
  hasParen (content p) = false ->
  plainRun (mount storage p) es = true ->
  exists m, component (run (mount storage p) es) = Some m
            /\ String.prefix (displayedContent (hook m)) (content (props m))
               = true.
Proof.
  intros Hplain Hes.
  destruct (RevealFacts.mount_shown storage p Hplain) as (m & Hm & Hs).
  destruct (RevealFacts.run_shown es _ m Hm Hs Hes) as (m' & Hm' & [Hd _] & _).
  exists m'. split; assumption.
Qed.

Lemma displayed_is_prefix_of_content_witness :
  exists m,
    component (run (mount ∅ (message "He" false))
                 [Update (message "Hello" false); Tick 1;
                  VisibilityChange Visible; Update (message "Hello!" true)])
    = Some m
    /\ String.prefix (displayedContent (hook m)) (content (props m)) = true.
Proof.
  apply displayed_is_prefix_of_content; vm_compute; reflexivity.
Defined.

(** X20: hiding the tab never marks a streaming message complete: when a
    content that is not empty is mounted without completion, then after any
    updates that extend the content without completion, ticks and
    visibility changes, hidden ones too, [isTypingComplete] is false. *)
Theorem hidden_tab_never_completes (storage : gmap string string)
    (p : Props) (es : list Event) :
  content p <> EmptyString ->
  (isComplete p || shared p)%bool = false ->
  streamingRun (mount storage p) es = true ->
  isTypingComplete (hookOf (run (mount storage p) es)) = false.
Proof.
  intros Hne Hq Hes.
  destruct (StreamingFacts.mount_streaming storage p Hne Hq) as (m & Hm & Hs).
  destruct (StreamingFacts.run_streaming es _ m Hm Hs Hes)
    as (m' & Hm' & _ & _ & Hc & _).
  unfold hookOf. now rewrite Hm'.
Qed.

Lemma hidden_tab_never_completes_witness :
  isTypingComplete
    (hookOf (run (mount ∅ (message "He" false))
               [Tick 1; VisibilityChange Hidden;
                Update (message "Hello" false); VisibilityChange Hidden;
                VisibilityChange Visible; Tick 2]))
  = false.
Proof.
  apply hidden_tab_never_completes;
    [discriminate | reflexivity | vm_compute; reflexivity].
Defined.
